(** * BricktronicsMotor: a shallow embedding of [BricktronicsMotor.h]

    The class [BricktronicsMotor] drives a LEGO NXT motor from an Arduino:
    a quadrature encoder counts ticks, a PID engine (the PID_v1 library)
    turns the distance to a set point into a speed, and three pins
    (enable, direction, PWM) drive the H-bridge.

    The embedding keeps the class as a record of its members and every
    member function as a function on that record.  The collaborators the
    header only includes (the PID engine, the encoder interrupt, the
    millisecond timer, the pin functions) are modelled by what the class
    can observe of them. *)

From Stdlib Require Import ZArith Lia Bool List.
From Corelib Require Import SpecFloat.
From stdpp Require Import base option gmap.

Local Open Scope Z_scope.

(** ** Fixed-width integers

    Values are mathematical integers; a conversion to a [w]-bit type
    reduces modulo [2^w].  Conversions to unsigned types are defined so
    by the language; conversions to signed types and signed overflow
    follow the two's-complement behaviour of avr-gcc. *)

Module Int.

Definition unsigned (bits x : Z) : Z := x mod 2 ^ bits.

Definition signed (bits x : Z) : Z :=
  (x + 2 ^ (bits - 1)) mod 2 ^ bits - 2 ^ (bits - 1).

Definition uint8 : Z -> Z := unsigned 8.
Definition uint16 : Z -> Z := unsigned 16.
Definition uint32 : Z -> Z := unsigned 32.
Definition int8 : Z -> Z := signed 8.
Definition int16 : Z -> Z := signed 16.
Definition int32 : Z -> Z := signed 32.

Definition is_uint8 (x : Z) : Prop := 0 <= x < 256.
Definition is_uint16 (x : Z) : Prop := 0 <= x < 65536.
Definition is_uint32 (x : Z) : Prop := 0 <= x < 4294967296.
Definition is_int8 (x : Z) : Prop := -128 <= x < 128.
Definition is_int16 (x : Z) : Prop := -32768 <= x < 32768.
Definition is_int32 (x : Z) : Prop := -2147483648 <= x < 2147483648.

(** [a / b] on [int32_t]: truncation toward zero, no result for a zero
    divisor. *)
Definition div32 (a b : Z) : option Z :=
  if b =? 0 then None else Some (int32 (Z.quot a b)).

(** Arduino.h: [#define abs(x) ((x)>0?(x):-(x))], at type [int32_t]. *)
Definition abs32 (x : Z) : Z := if 0 <? x then x else int32 (- x).

End Int.

Import Int.

(** ** The type [double]

    The header computes with [double] only through conversions,
    comparisons, negation, subtraction and division, so the embedding is
    parametric in an implementation of exactly these (binary32 on AVR,
    binary64 elsewhere). *)

Class Double : Type := {
  double : Type;
  (** integer to floating conversion *)
  d_of_int : Z -> double;
  (** floating to integer conversion (truncation toward zero) *)
  d_to_int : double -> Z;
  (** a decimal literal [m * 10 ^ e] *)
  d_literal : Z -> Z -> double;
  d_lt : double -> double -> bool;
  d_opp : double -> double;
  d_sub : double -> double -> double;
  d_div : double -> double -> double
}.

(** Arduino.h: [#define abs(x) ((x)>0?(x):-(x))], at type [double]. *)
Definition d_abs `{Double} (x : double) : double :=
  if d_lt (d_of_int 0) x then x else d_opp x.

(** IEEE 754 binary floating point of precision [prec] and exponent bound
    [emax], rounding to nearest even. *)
Module IEEE.

Section Format.
Variables prec emax : Z.

Definition of_int (z : Z) : spec_float := binary_normalize prec emax z 0 false.

Definition to_int (x : spec_float) : Z :=
  match x with
  | S754_finite s m e =>
      let a := if 0 <=? e then Z.pos m * 2 ^ e else Z.pos m / 2 ^ (- e) in
      if s then - a else a
  | _ => 0
  end.

Definition literal (m e : Z) : spec_float :=
  if 0 <=? e then of_int (m * 10 ^ e)
  else
    match m with
    | Z0 => S754_zero false
    | Zpos p => SFdiv prec emax (S754_finite false p 0)
                  (S754_finite false (Z.to_pos (10 ^ (- e))) 0)
    | Zneg p => SFdiv prec emax (S754_finite true p 0)
                  (S754_finite false (Z.to_pos (10 ^ (- e))) 0)
    end.

Definition ops : Double := {|
  double := spec_float;
  d_of_int := of_int;
  d_to_int := to_int;
  d_literal := literal;
  d_lt := SFltb;
  d_opp := SFopp;
  d_sub := SFsub prec emax;
  d_div := SFdiv prec emax
|}.
End Format.

(** [double] on AVR is the 32-bit format; elsewhere the 64-bit one. *)
Definition binary32 : Double := ops 24 128.
Definition binary64 : Double := ops 53 1024.

End IEEE.

(** ** Constants of the header *)

Definition BRICKTRONICS_MOTOR_PID_KP `{Double} : double := d_literal 264 (-2).
Definition BRICKTRONICS_MOTOR_PID_KI `{Double} : double := d_literal 14432 (-3).
Definition BRICKTRONICS_MOTOR_PID_KD `{Double} : double := d_literal 1207317073 (-10).
Definition BRICKTRONICS_MOTOR_PID_MODE_DISABLED : Z := 0.
Definition BRICKTRONICS_MOTOR_PID_MODE_POSITION : Z := 1.
Definition BRICKTRONICS_MOTOR_PID_MODE_SPEED : Z := 2.
Definition BRICKTRONICS_MOTOR_PID_SAMPLE_TIME_MS : Z := 50.
Definition BRICKTRONICS_MOTOR_ANGLE_MULTIPLIER_DEFAULT : Z := 1.
Definition BRICKTRONICS_MOTOR_EPSILON_DEFAULT : Z := 5.
Definition BRICKTRONICS_MOTOR_PID_OUTPUT_SETTLED_THRESHOLD : Z := 30.

(** ** Collaborators *)

(** What a pin was last driven to: a level by [digitalWrite], a duty
    cycle by [analogWrite]. *)
Inductive PinOut : Type :=
| Level (high : bool)
| Duty (value : Z).

Definition LOW : PinOut := Level false.
Definition HIGH : PinOut := Level true.

(** A call made on the I/O functions. *)
Inductive IoCall : Type :=
| DigitalWrite (pin : Z) (value : PinOut)
| AnalogWrite (pin : Z) (value : Z).

(** A call received by the PID engine [_pid].  The engine holds pointers
    to [_pidInput], [_pidOutput] and [_pidSetpoint]; [Compute] reads the
    first and the last and writes the second. *)
Inductive PidDirection : Type := DIRECT | REVERSE.

Inductive PidCall `{Double} : Type :=
| PidConstruct (Kp Ki Kd : double) (ControllerDirection : PidDirection)
| SetSampleTime (ms : Z)
| SetOutputLimits (lo hi : Z)
| SetTunings (Kp Ki Kd : double)
| Compute (input setpoint : double).

(** ** The object

    The members of the class under their own names.  [_pid] is the engine
    seen as the calls it has received, oldest first; [_encoder] is the
    encoder's tick counter.  The last three fields are the board the
    object is wired to: the output of every pin, the calls made on the
    I/O functions (oldest first) and the millisecond counter read by
    [millis()]. *)
Record BricktronicsMotor `{Double} : Type := mkMotor {
  _enPin : Z;
  _dirPin : Z;
  _pwmPin : Z;
  _enabled : bool;
  _rawSpeed : Z;
  _pid : list PidCall;
  _pidMode : Z;
  _pidSetpoint : double;
  _pidInput : double;
  _pidOutput : double;
  _pidKp : double;
  _pidKi : double;
  _pidKd : double;
  _encoder : Z;
  _angleMultiplier : Z;
  _epsilon : Z;
  pins : gmap Z PinOut;
  io : list IoCall;
  timer0_millis : Z
}.

Arguments mkMotor {_} _ _ _ _ _ _ _ _ _ _ _ _ _ _ _ _ _ _ _.

Section Motor.
Context `{D : Double}.

Implicit Type m : BricktronicsMotor.

(** Assignments to the members that the functions below write. *)
Definition set_rawSpeed (v : Z) m : BricktronicsMotor :=
  mkMotor (_enPin m) (_dirPin m) (_pwmPin m) (_enabled m) v (_pid m)
    (_pidMode m) (_pidSetpoint m) (_pidInput m) (_pidOutput m) (_pidKp m)
    (_pidKi m) (_pidKd m) (_encoder m) (_angleMultiplier m) (_epsilon m)
    (pins m) (io m) (timer0_millis m).

Definition set_pid (v : list PidCall) m : BricktronicsMotor :=
  mkMotor (_enPin m) (_dirPin m) (_pwmPin m) (_enabled m) (_rawSpeed m) v
    (_pidMode m) (_pidSetpoint m) (_pidInput m) (_pidOutput m) (_pidKp m)
    (_pidKi m) (_pidKd m) (_encoder m) (_angleMultiplier m) (_epsilon m)
    (pins m) (io m) (timer0_millis m).

Definition set_pidMode (v : Z) m : BricktronicsMotor :=
  mkMotor (_enPin m) (_dirPin m) (_pwmPin m) (_enabled m) (_rawSpeed m)
    (_pid m) v (_pidSetpoint m) (_pidInput m) (_pidOutput m) (_pidKp m)
    (_pidKi m) (_pidKd m) (_encoder m) (_angleMultiplier m) (_epsilon m)
    (pins m) (io m) (timer0_millis m).

Definition set_pidSetpoint (v : double) m : BricktronicsMotor :=
  mkMotor (_enPin m) (_dirPin m) (_pwmPin m) (_enabled m) (_rawSpeed m)
    (_pid m) (_pidMode m) v (_pidInput m) (_pidOutput m) (_pidKp m) (_pidKi m)
    (_pidKd m) (_encoder m) (_angleMultiplier m) (_epsilon m) (pins m) (io m)
    (timer0_millis m).

Definition set_pidInput (v : double) m : BricktronicsMotor :=
  mkMotor (_enPin m) (_dirPin m) (_pwmPin m) (_enabled m) (_rawSpeed m)
    (_pid m) (_pidMode m) (_pidSetpoint m) v (_pidOutput m) (_pidKp m)
    (_pidKi m) (_pidKd m) (_encoder m) (_angleMultiplier m) (_epsilon m)
    (pins m) (io m) (timer0_millis m).

Definition set_pidOutput (v : double) m : BricktronicsMotor :=
  mkMotor (_enPin m) (_dirPin m) (_pwmPin m) (_enabled m) (_rawSpeed m)
    (_pid m) (_pidMode m) (_pidSetpoint m) (_pidInput m) v (_pidKp m)
    (_pidKi m) (_pidKd m) (_encoder m) (_angleMultiplier m) (_epsilon m)
    (pins m) (io m) (timer0_millis m).

Definition set_gains (kp ki kd : double) m : BricktronicsMotor :=
  mkMotor (_enPin m) (_dirPin m) (_pwmPin m) (_enabled m) (_rawSpeed m)
    (_pid m) (_pidMode m) (_pidSetpoint m) (_pidInput m) (_pidOutput m) kp ki
    kd (_encoder m) (_angleMultiplier m) (_epsilon m) (pins m) (io m)
    (timer0_millis m).

Definition set_encoder (v : Z) m : BricktronicsMotor :=
  mkMotor (_enPin m) (_dirPin m) (_pwmPin m) (_enabled m) (_rawSpeed m)
    (_pid m) (_pidMode m) (_pidSetpoint m) (_pidInput m) (_pidOutput m)
    (_pidKp m) (_pidKi m) (_pidKd m) v (_angleMultiplier m) (_epsilon m)
    (pins m) (io m) (timer0_millis m).

Definition set_angleMultiplier (v : Z) m : BricktronicsMotor :=
  mkMotor (_enPin m) (_dirPin m) (_pwmPin m) (_enabled m) (_rawSpeed m)
    (_pid m) (_pidMode m) (_pidSetpoint m) (_pidInput m) (_pidOutput m)
    (_pidKp m) (_pidKi m) (_pidKd m) (_encoder m) v (_epsilon m) (pins m)
    (io m) (timer0_millis m).

Definition set_epsilon (v : Z) m : BricktronicsMotor :=
  mkMotor (_enPin m) (_dirPin m) (_pwmPin m) (_enabled m) (_rawSpeed m)
    (_pid m) (_pidMode m) (_pidSetpoint m) (_pidInput m) (_pidOutput m)
    (_pidKp m) (_pidKi m) (_pidKd m) (_encoder m) (_angleMultiplier m) v
    (pins m) (io m) (timer0_millis m).

Definition set_timer0_millis (v : Z) m : BricktronicsMotor :=
  mkMotor (_enPin m) (_dirPin m) (_pwmPin m) (_enabled m) (_rawSpeed m)
    (_pid m) (_pidMode m) (_pidSetpoint m) (_pidInput m) (_pidOutput m)
    (_pidKp m) (_pidKi m) (_pidKd m) (_encoder m) (_angleMultiplier m)
    (_epsilon m) (pins m) (io m) v.

(** [_digitalWrite(pin, value)] *)
Definition _digitalWrite (pin : Z) (value : PinOut) m : BricktronicsMotor :=
  mkMotor (_enPin m) (_dirPin m) (_pwmPin m) (_enabled m) (_rawSpeed m)
    (_pid m) (_pidMode m) (_pidSetpoint m) (_pidInput m) (_pidOutput m)
    (_pidKp m) (_pidKi m) (_pidKd m) (_encoder m) (_angleMultiplier m)
    (_epsilon m) (<[pin := value]> (pins m))
    (io m ++ [DigitalWrite pin value]) (timer0_millis m).

(** [analogWrite(pin, value)] *)
Definition analogWrite (pin : Z) (value : Z) m : BricktronicsMotor :=
  mkMotor (_enPin m) (_dirPin m) (_pwmPin m) (_enabled m) (_rawSpeed m)
    (_pid m) (_pidMode m) (_pidSetpoint m) (_pidInput m) (_pidOutput m)
    (_pidKp m) (_pidKi m) (_pidKd m) (_encoder m) (_angleMultiplier m)
    (_epsilon m) (<[pin := Duty value]> (pins m))
    (io m ++ [AnalogWrite pin value]) (timer0_millis m).

(** [millis()] *)
Definition millis m : Z := timer0_millis m.

(** A call on the engine, recorded. *)
Definition pid_call (c : PidCall) m : BricktronicsMotor :=
  set_pid (_pid m ++ [c]) m.

(** ** Constructor

    [_pidSetpoint], [_pidInput] and [_pidOutput] have no initialiser: the
    object starts with whatever the memory held, here [junk]. *)
Definition construct (enPin dirPin pwmPin : Z) (junk : double * double * double)
    (board_pins : gmap Z PinOut) (now : Z) : BricktronicsMotor :=
  {| _enPin := uint8 enPin;
     _dirPin := uint8 dirPin;
     _pwmPin := uint8 pwmPin;
     _enabled := false;
     _rawSpeed := 0;
     _pid := [PidConstruct BRICKTRONICS_MOTOR_PID_KP BRICKTRONICS_MOTOR_PID_KI
                BRICKTRONICS_MOTOR_PID_KD REVERSE;
              SetSampleTime BRICKTRONICS_MOTOR_PID_SAMPLE_TIME_MS;
              SetOutputLimits (-255) 255];
     _pidMode := BRICKTRONICS_MOTOR_PID_MODE_DISABLED;
     _pidSetpoint := junk.1.1;
     _pidInput := junk.1.2;
     _pidOutput := junk.2;
     _pidKp := BRICKTRONICS_MOTOR_PID_KP;
     _pidKi := BRICKTRONICS_MOTOR_PID_KI;
     _pidKd := BRICKTRONICS_MOTOR_PID_KD;
     _encoder := 0;
     _angleMultiplier := BRICKTRONICS_MOTOR_ANGLE_MULTIPLIER_DEFAULT;
     _epsilon := BRICKTRONICS_MOTOR_EPSILON_DEFAULT;
     pins := board_pins;
     io := [];
     timer0_millis := uint32 now |}.

(** ** Stopping, position, epsilon *)

Definition stop m : BricktronicsMotor :=
  let m := _digitalWrite (_enPin m) LOW m in
  let m := _digitalWrite (_dirPin m) LOW m in
  _digitalWrite (_pwmPin m) LOW m.

Definition getPosition m : Z := _encoder m.

Definition setPosition m (pos : Z) : BricktronicsMotor := set_encoder pos m.

Definition settledAtPosition m (position : Z) : bool :=
  (abs32 (int32 (getPosition m - position)) <? _epsilon m)
  && d_lt (d_abs (_pidOutput m))
          (d_of_int BRICKTRONICS_MOTOR_PID_OUTPUT_SETTLED_THRESHOLD).

Definition setEpsilon m (epsilon : Z) : BricktronicsMotor :=
  set_epsilon (uint8 epsilon) m.

Definition getEpsilon m : Z := int8 (_epsilon m).

(** ** The world outside the object

    Three things change the state behind the object's back: the encoder
    interrupt moves the tick counter, the timer interrupt advances the
    millisecond counter, and the engine's [Compute()] writes
    [_pidOutput].  What each of them leaves may depend on everything the
    object shows (its pins, the calls made so far, the time). *)
Record Environment : Type := {
  encoder_isr : BricktronicsMotor -> Z;
  timer_isr : BricktronicsMotor -> Z;
  pid_output : BricktronicsMotor -> double
}.

Variable env : Environment.

(** The interrupts that run before the object next looks at the counters. *)
Definition interrupts m : BricktronicsMotor :=
  set_timer0_millis (uint32 (timer_isr env m))
    (set_encoder (int32 (encoder_isr env m)) m).

(** [_pid.SetTunings(Kp, Ki, Kd)] and [_pid.Compute()] *)
Definition pid_SetTunings (Kp Ki Kd : double) m : BricktronicsMotor :=
  pid_call (SetTunings Kp Ki Kd) m.

Definition pid_Compute m : BricktronicsMotor :=
  let m := pid_call (Compute (_pidInput m) (_pidSetpoint m)) m in
  set_pidOutput (pid_output env m) m.

(** ** Tunings *)

Definition pidUpdateTuningsConservative m (divisor : double) : BricktronicsMotor :=
  pid_SetTunings (d_div (_pidKp m) divisor) (d_div (_pidKi m) divisor)
    (d_div (_pidKd m) divisor) m.

Definition pidUpdateTunings m : BricktronicsMotor :=
  pid_SetTunings (_pidKp m) (_pidKi m) (_pidKd m) m.

Definition pidSetTunings m (Kp Ki Kd : double) : BricktronicsMotor :=
  pidUpdateTunings (set_gains Kp Ki Kd m).

Definition pidSetKp m (Kp : double) : BricktronicsMotor :=
  pidUpdateTunings (set_gains Kp (_pidKi m) (_pidKd m) m).

Definition pidSetKi m (Ki : double) : BricktronicsMotor :=
  pidUpdateTunings (set_gains (_pidKp m) Ki (_pidKd m) m).

Definition pidSetKd m (Kd : double) : BricktronicsMotor :=
  pidUpdateTunings (set_gains (_pidKp m) (_pidKi m) Kd m).

(** ** Raw speed *)

(** [s] is an [int16_t]; [_rawSpeed] is declared [uint16_t].  [255 + s]
    is computed on [int] and [s < 0] there, so it does not overflow. *)
Definition rawSetSpeed m (s : Z) : BricktronicsMotor :=
  let m := set_rawSpeed (uint16 s) m in
  if s =? 0 then stop m
  else if s <? 0 then
    let m := _digitalWrite (_dirPin m) HIGH m in
    let m := analogWrite (_pwmPin m) (255 + s) m in
    _digitalWrite (_enPin m) HIGH m
  else
    let m := _digitalWrite (_dirPin m) LOW m in
    let m := analogWrite (_pwmPin m) s m in
    _digitalWrite (_enPin m) HIGH m.

Definition rawGetSpeed m : Z := int16 (_rawSpeed m).

(** ** update() *)

Definition update m : BricktronicsMotor :=
  if _pidMode m =? BRICKTRONICS_MOTOR_PID_MODE_POSITION then
    let m := set_pidInput (d_of_int (_encoder m)) m in
    let m :=
      if d_lt (d_abs (d_sub (_pidInput m) (_pidSetpoint m))) (d_of_int 5)
      then pidUpdateTuningsConservative m (d_of_int 8)
      else pidUpdateTunings m in
    let m := pid_Compute m in
    rawSetSpeed m (int16 (d_to_int (_pidOutput m)))
  else if _pidMode m =? BRICKTRONICS_MOTOR_PID_MODE_SPEED then m
  else m.

(** ** Position control *)

Definition goToPosition m (position : Z) : BricktronicsMotor :=
  set_pidSetpoint (d_of_int position)
    (set_pidMode BRICKTRONICS_MOTOR_PID_MODE_POSITION m).

(** [while (!settledAtPosition(position)) update();]  The loop need not
    end, so it runs on [fuel]: [None] when the fuel is spent.  The
    interrupts run before each look at the encoder. *)
Fixpoint wait_loop (fuel : nat) (position : Z) m : option BricktronicsMotor :=
  match fuel with
  | O => None
  | S fuel =>
      let m := interrupts m in
      if settledAtPosition m position then Some m
      else wait_loop fuel position (update (interrupts m))
  end.

Definition goToPositionWait (fuel : nat) m (position : Z)
    : option BricktronicsMotor :=
  let m := goToPosition m position in
  m ← wait_loop fuel position m;
  Some (stop m).

(** [while (!settledAtPosition(position) && (millis() < timeoutMS)) update();]
    [&&] does not read the clock once the motor has settled. *)
Fixpoint timeout_loop (fuel : nat) (position timeoutMS : Z) m
    : option BricktronicsMotor :=
  match fuel with
  | O => None
  | S fuel =>
      let m := interrupts m in
      if settledAtPosition m position then Some m
      else
        let m := interrupts m in
        if millis m <? timeoutMS
        then timeout_loop fuel position timeoutMS (update (interrupts m))
        else Some m
  end.

Definition goToPositionWaitTimeout (fuel : nat) m (position timeoutMS : Z)
    : option (bool * BricktronicsMotor) :=
  let m := goToPosition m position in
  let m := interrupts m in
  let timeoutMS := uint32 (timeoutMS + millis m) in
  m ← timeout_loop fuel position timeoutMS m;
  let m := stop m in
  let m := interrupts m in
  if timeoutMS <=? millis m then Some (false, m) else Some (true, m).

(** ** Angles *)

Definition getAngle m : option Z :=
  q ← div32 (getPosition m) (_angleMultiplier m);
  Some (uint16 (Z.rem q 360)).

Definition setAngle m (angle : Z) : BricktronicsMotor :=
  setPosition m (int32 (Z.rem angle 360 * _angleMultiplier m)).

Definition setAngleOutputMultiplier m (multiplier : Z) : BricktronicsMotor :=
  set_angleMultiplier (int8 (Z.shiftl multiplier 1)) m.

(** [while (delta > 180) delta -= 360;] on an [int16_t].  Every turn
    lowers [delta], so [Z.to_nat delta] turns are always enough. *)
Fixpoint while_above (fuel : nat) (delta : Z) : Z :=
  match fuel with
  | O => delta
  | S fuel => if 180 <? delta then while_above fuel (int16 (delta - 360)) else delta
  end.

(** [while (delta < -180) delta += 360;] *)
Fixpoint while_below (fuel : nat) (delta : Z) : Z :=
  match fuel with
  | O => delta
  | S fuel => if delta <? -180 then while_below fuel (int16 (delta + 360)) else delta
  end.

(** The local variable [delta] of [_getDestPositionFromAngle] when the
    two loops are done. *)
Definition angle_delta m (angle : Z) : option Z :=
  a ← getAngle m;
  let delta := int16 (Z.rem angle 360 - a) in
  let delta := while_above (Z.to_nat delta) delta in
  let delta := while_below (Z.to_nat (- delta)) delta in
  Some delta.

(** [delta * _angleMultiplier] is computed on [int]: it fits in 16 bits,
    [delta] being within 180 of zero and the multiplier an [int8_t]. *)
Definition _getDestPositionFromAngle m (angle : Z) : option Z :=
  delta ← angle_delta m angle;
  Some (int32 (getPosition m + delta * _angleMultiplier m)).

Definition goToAngle m (angle : Z) : option BricktronicsMotor :=
  position ← _getDestPositionFromAngle m angle;
  Some (goToPosition m position).

Definition goToAngleWait (fuel : nat) m (angle : Z) : option BricktronicsMotor :=
  position ← _getDestPositionFromAngle m angle;
  goToPositionWait fuel m position.

Definition goToAngleWaitTimeout (fuel : nat) m (angle timeoutMS : Z)
    : option (bool * BricktronicsMotor) :=
  position ← _getDestPositionFromAngle m angle;
  goToPositionWaitTimeout fuel m position timeoutMS.

End Motor.

(** ** Vocabulary of the statements *)

Section Vocabulary.
Context `{D : Double}.
Variable env : Environment.
Implicit Type m : BricktronicsMotor.

(** The three pins of the object read low. *)
Definition drive_stopped m : Prop :=
  pins m !! _enPin m = Some LOW
  /\ pins m !! _dirPin m = Some LOW
  /\ pins m !! _pwmPin m = Some LOW.

(** The stored gains as a triple. *)
Definition gains m : double * double * double := (_pidKp m, _pidKi m, _pidKd m).

(** The speed stored is the one [update] last passed to [rawSetSpeed]. *)
Definition speed_commanded m : Prop :=
  rawGetSpeed m = int16 (d_to_int (_pidOutput m)).

(** The clock never runs backwards and does not wrap around. *)
Definition clock_steady : Prop :=
  forall m, is_uint32 (timer0_millis m) ->
    timer0_millis m <= timer_isr env m < 4294967296.

(** The clock gains at least 1 ms between two looks at it, up to the
    last value it can hold. *)
Definition clock_advances : Prop :=
  forall m, is_uint32 (timer0_millis m) ->
    Z.min (timer0_millis m + 1) 4294967295 <= timer_isr env m < 4294967296.

(** The loop of [goToPositionWaitTimeout] ends on a motor it finds
    settled, at a time before the deadline. *)
Definition settles_before_deadline (fuel : nat) m (position timeoutMS : Z)
    : Prop :=
  let start := interrupts env (goToPosition m position) in
  let deadline := uint32 (timeoutMS + millis start) in
  exists m1,
    timeout_loop env fuel position deadline start = Some m1
    /\ settledAtPosition m1 position = true
    /\ millis m1 < deadline.

End Vocabulary.

(** Objects the statements below are tried on: a motor on pins 2, 3 and
    4 of an AVR board (where [double] is binary32), as the constructor
    leaves a global object (its members without initialiser are zero),
    and the same motor with its counter at [pos]. *)
Module Bench.

Definition fresh : @BricktronicsMotor IEEE.binary32 :=
  @construct IEEE.binary32 2 3 4
    (S754_zero false, S754_zero false, S754_zero false) ∅ 0.

Definition at_position (pos : Z) : @BricktronicsMotor IEEE.binary32 :=
  setPosition fresh pos.

End Bench.

(** Two worlds to run the waits in, on the AVR board of [Bench].  In
    both every look at the counters finds the clock 3 ms later. *)
Module Plant.

#[local] Existing Instance IEEE.binary32.

(** A motor that does not move, say a jammed one; the engine leaves the
    output where it is. *)
Definition calm : Environment := {|
  encoder_isr := fun m => _encoder m;
  timer_isr := fun m => Z.min (timer0_millis m + 3) 4294967295;
  pid_output := fun m => _pidOutput m
|}.

(** A motor that, while enabled, turns by the commanded speed between
    two looks at the encoder, under an engine that asks for a quarter of
    the distance left. *)
Definition servo : Environment := {|
  encoder_isr := fun m =>
    match pins m !! _enPin m with
    | Some (Level true) => _encoder m + rawGetSpeed m
    | _ => _encoder m
    end;
  timer_isr := fun m => Z.min (timer0_millis m + 3) 4294967295;
  pid_output := fun m =>
    d_of_int (Z.quot (d_to_int (_pidSetpoint m) - d_to_int (_pidInput m)) 4)
|}.

End Plant.

(** ** The rest of the class *)

Section Rest.
Context `{D : Double}.
Variable env : Environment.
Implicit Type m : BricktronicsMotor.

Definition set_enabled (v : bool) m : BricktronicsMotor :=
  mkMotor (_enPin m) (_dirPin m) (_pwmPin m) v (_rawSpeed m) (_pid m)
    (_pidMode m) (_pidSetpoint m) (_pidInput m) (_pidOutput m) (_pidKp m)
    (_pidKi m) (_pidKd m) (_encoder m) (_angleMultiplier m) (_epsilon m)
    (pins m) (io m) (timer0_millis m).

Definition pidSetUpdateFrequencyMS m (timeMS : Z) : BricktronicsMotor :=
  pid_call (SetSampleTime timeMS) m.

(** [while (millis() < endTime) update();]  The loop ends when the
    clock allows, so it runs on [fuel] like the waits; the interrupts run
    before each look at a counter. *)
Fixpoint delay_loop (fuel : nat) (endTime : Z) m : option BricktronicsMotor :=
  match fuel with
  | O => None
  | S fuel =>
      let m := interrupts env m in
      if millis m <? endTime
      then delay_loop fuel endTime (update env (interrupts env m))
      else Some m
  end.

(** [delayMS] is an [int]; the sum is an [unsigned long]. *)
Definition delayUpdateMS (fuel : nat) m (delayMS : Z) : option BricktronicsMotor :=
  let m := interrupts env m in
  let endTime := uint32 (millis m + delayMS) in
  delay_loop fuel endTime m.

(** [begin()], [enable()] and [disable()] also reach what the object
    does not hold: the direction of the pins set by [_pinMode], the mode
    the engine is put in by [SetMode], and the timer register [TCCR1B]. *)
Inductive PinDirection : Type := INPUT | OUTPUT.

Inductive PidMode : Type := MANUAL | AUTOMATIC.

Record Board : Type := mkBoard {
  motor : BricktronicsMotor;
  pin_direction : gmap Z PinDirection;
  pid_mode : PidMode;
  TCCR1B : Z
}.

Implicit Type b : Board.

Definition set_motor (v : BricktronicsMotor) b : Board :=
  mkBoard v (pin_direction b) (pid_mode b) (TCCR1B b).

(** [_pinMode(pin, mode)] *)
Definition _pinMode (pin : Z) (mode : PinDirection) b : Board :=
  mkBoard (motor b) (<[pin := mode]> (pin_direction b)) (pid_mode b) (TCCR1B b).

(** [_pid.SetMode(Mode)] *)
Definition pid_SetMode (mode : PidMode) b : Board :=
  mkBoard (motor b) (pin_direction b) mode (TCCR1B b).

Definition begin b : Board :=
  let b := pid_SetMode AUTOMATIC b in
  let b := set_motor (set_enabled true (motor b)) b in
  let b := mkBoard (motor b) (pin_direction b) (pid_mode b)
             (uint8 (Z.lor (Z.land (TCCR1B b) 248) 1)) in
  let b := set_motor (stop (motor b)) b in
  let b := _pinMode (_dirPin (motor b)) OUTPUT b in
  let b := _pinMode (_pwmPin (motor b)) OUTPUT b in
  _pinMode (_enPin (motor b)) OUTPUT b.

Definition enable b : Board := begin b.

Definition disable b : Board :=
  let b := set_motor (set_enabled false (motor b)) b in
  let b := _pinMode (_dirPin (motor b)) INPUT b in
  let b := _pinMode (_pwmPin (motor b)) INPUT b in
  _pinMode (_enPin (motor b)) INPUT b.

(** The motor does not move: the encoder interrupt leaves the counter
    where it is. *)
Definition encoder_still : Prop :=
  forall m, encoder_isr env m = _encoder m.

End Rest.

(** A board for [Bench.fresh]: no pin configured, the engine in the
    manual mode its constructor leaves, the timer register at [0x03]. *)
Module Rig.

Definition board : @Board IEEE.binary32 :=
  {| motor := Bench.fresh; pin_direction := ∅; pid_mode := MANUAL; TCCR1B := 3 |}.

End Rig.

(** ** Bounds on a [double]

    [-t < x < t], written with the comparison of the type alone: what
    [abs(x) < t] is to mean. *)
Definition d_within `{Double} (t : Z) (x : double) : bool :=
  d_lt (d_of_int (- t)) x && d_lt x (d_of_int t).

(** What the statements about [abs(x) < t] ask of the comparison and the
    negation of a [double], for the bound [t]: [-t < 0 < t]; what is
    above zero is above [-t]; and for an [x] not above zero, [-x < t]
    says as much as [-t < x], and [-t < x] implies [x < t].  A NaN is
    above nothing and below nothing, and meets all of it. *)
Definition d_bound_ok `{Double} (t : Z) : Prop :=
  d_lt (d_of_int (- t)) (d_of_int 0) = true
  /\ d_lt (d_of_int 0) (d_of_int t) = true
  /\ forall x : double,
       (d_lt (d_of_int 0) x = true -> d_lt (d_of_int (- t)) x = true)
       /\ (d_lt (d_of_int 0) x = false ->
           d_lt (d_opp x) (d_of_int t) = d_lt (d_of_int (- t)) x
           /\ (d_lt (d_of_int (- t)) x = true -> d_lt x (d_of_int t) = true)).

(** The bench motor at tick [pos], sent to tick 100; the two sets of
    tunings [update] can hand the engine for a motor. *)
Definition bench_goal_100 (pos : Z) : @BricktronicsMotor IEEE.binary32 :=
  goToPosition (Bench.at_position pos) 100.

Definition eighth_gains `{Double} (m : BricktronicsMotor) : PidCall :=
  SetTunings (d_div (_pidKp m) (d_of_int 8)) (d_div (_pidKi m) (d_of_int 8))
    (d_div (_pidKd m) (d_of_int 8)).

Definition full_gains `{Double} (m : BricktronicsMotor) : PidCall :=
  SetTunings (_pidKp m) (_pidKi m) (_pidKd m).

(** The bench motor with the engine's output at [output]. *)
Definition bench_output (pos output : Z) : @BricktronicsMotor IEEE.binary32 :=
  set_pidOutput (@d_of_int IEEE.binary32 output) (Bench.at_position pos).

(** * Properties *)

(** ** Fixed-width arithmetic *)

Module IntFacts.

Ltac int_unfold :=
  unfold int8, int16, int32, uint8, uint16, uint32, signed, unsigned,
    is_int8, is_int16, is_int32, is_uint8, is_uint16, is_uint32 in *;
  simpl (_ - 1) in *;
  change (2 ^ 8) with 256 in *; change (2 ^ 7) with 128 in *;
  change (2 ^ 16) with 65536 in *; change (2 ^ 15) with 32768 in *;
  change (2 ^ 32) with 4294967296 in *; change (2 ^ 31) with 2147483648 in *.

Ltac int_solve := int_unfold; Z.to_euclidean_division_equations; lia.

Lemma int32_range x : is_int32 (int32 x).
Proof. int_solve. Qed.

Lemma int16_range x : is_int16 (int16 x).
Proof. int_solve. Qed.

Lemma uint16_range x : is_uint16 (uint16 x).
Proof. int_solve. Qed.

Lemma uint32_range x : is_uint32 (uint32 x).
Proof. int_solve. Qed.

Lemma int32_small x : is_int32 x -> int32 x = x.
Proof. int_solve. Qed.

Lemma int16_small x : is_int16 x -> int16 x = x.
Proof. int_solve. Qed.

Lemma int8_small x : is_int8 x -> int8 x = x.
Proof. int_solve. Qed.

Lemma uint32_small x : is_uint32 x -> uint32 x = x.
Proof. int_solve. Qed.

(** Reading a [uint16_t] back as an [int16_t] undoes the conversion. *)
Lemma int16_uint16 x : int16 (uint16 x) = int16 x.
Proof. int_solve. Qed.

(** A difference with a wrapped [uint16_t], stored in an [int16_t]. *)
Lemma int16_sub_uint16 a r : is_int16 (a - r) -> int16 (a - uint16 r) = a - r.
Proof. int_solve. Qed.

Lemma abs32_small x : Z.abs x < 2147483648 -> abs32 (int32 x) = Z.abs x.
Proof.
  intros Hx. rewrite int32_small by (int_unfold; lia).
  unfold abs32. destruct (Z.ltb_spec 0 x).
  - lia.
  - rewrite int32_small by (int_unfold; lia). lia.
Qed.

Lemma rem_360_bound x : -360 < Z.rem x 360 < 360.
Proof. Z.to_euclidean_division_equations. lia. Qed.

End IntFacts.

Import IntFacts.

(** Runs a call on a concrete object and offers its result. *)
Ltac offer_result :=
  match goal with
  | |- exists _, ?call = Some _ /\ _ =>
      let r := eval vm_compute in call in
      match r with Some ?x => exists x end
  end.

(** ** Angles *)

Section AngleFacts.
Context `{D : Double}.
Implicit Type m : BricktronicsMotor.

(** What [getAngle] computes: the quotient truncated toward zero, its
    remainder with the dividend's sign, stored in a [uint16_t]. *)
Lemma getAngle_eq m :
  _angleMultiplier m <> 0 ->
  getAngle m
  = Some (uint16 (Z.rem (int32 (Z.quot (_encoder m) (_angleMultiplier m))) 360)).
Proof.
  intros Hk. unfold getAngle, div32, getPosition.
  destruct (Z.eqb_spec (_angleMultiplier m) 0); [contradiction | reflexivity].
Qed.

Lemma getAngle_zero_multiplier m : _angleMultiplier m = 0 -> getAngle m = None.
Proof. intros Hk. unfold getAngle, div32. rewrite Hk. reflexivity. Qed.

(** On the non-negative side the angle is the one of the comment,
    [0-359]. *)
Lemma getAngle_nonneg m :
  is_int32 (_encoder m) -> 0 <= _encoder m -> 0 < _angleMultiplier m ->
  getAngle m = Some ((_encoder m / _angleMultiplier m) mod 360)
  /\ 0 <= (_encoder m / _angleMultiplier m) mod 360 < 360.
Proof.
  intros Hr Hp Hk. rewrite getAngle_eq by lia.
  assert (Hq : 0 <= _encoder m / _angleMultiplier m <= _encoder m).
  { split; [apply Z.div_pos; lia |].
    apply Z.div_le_upper_bound; [lia | nia]. }
  rewrite Z.quot_div_nonneg by lia.
  rewrite int32_small by (int_unfold; lia).
  rewrite Z.rem_mod_nonneg by lia.
  pose proof (Z.mod_pos_bound (_encoder m / _angleMultiplier m) 360 ltac:(lia)).
  split; [| lia]. f_equal. int_unfold. apply Z.mod_small. lia.
Qed.

(** Below zero the remainder is negative and the [uint16_t] holds it
    plus 65536. *)
Lemma getAngle_negative m :
  _angleMultiplier m <> 0 ->
  Z.rem (int32 (Z.quot (_encoder m) (_angleMultiplier m))) 360 < 0 ->
  exists a, getAngle m = Some a /\ 65176 < a < 65536.
Proof.
  intros Hk Hneg. rewrite getAngle_eq by assumption.
  eexists. split; [reflexivity |].
  pose proof (rem_360_bound (int32 (Z.quot (_encoder m) (_angleMultiplier m)))).
  int_solve.
Qed.

(** The two loops of [_getDestPositionFromAngle]. *)
Lemma while_above_spec fuel delta :
  is_int16 delta -> delta <= Z.of_nat fuel ->
  exists k, 0 <= k /\ while_above fuel delta = delta - 360 * k
    /\ while_above fuel delta <= 180
    /\ (delta <= 180 -> k = 0)
    /\ (180 < delta -> -180 < while_above fuel delta).
Proof.
  revert delta. induction fuel as [| fuel IH]; intros delta Hr Hf.
  - exists 0. simpl. lia.
  - cbn [while_above]. destruct (Z.ltb_spec 180 delta) as [Hgt | Hle].
    + assert (Hs : int16 (delta - 360) = delta - 360)
        by (apply int16_small; int_unfold; lia).
      rewrite Hs.
      destruct (IH (delta - 360)) as (k & Hk & Heq & Hub & Hk0 & Hlb);
        [int_unfold; lia | lia |].
      exists (k + 1). lia.
    + exists 0. lia.
Qed.

Lemma while_below_spec fuel delta :
  is_int16 delta -> - delta <= Z.of_nat fuel ->
  exists k, 0 <= k /\ while_below fuel delta = delta + 360 * k
    /\ -180 <= while_below fuel delta
    /\ (-180 <= delta -> k = 0)
    /\ (delta < -180 -> while_below fuel delta < 180).
Proof.
  revert delta. induction fuel as [| fuel IH]; intros delta Hr Hf.
  - exists 0. simpl. lia.
  - cbn [while_below]. destruct (Z.ltb_spec delta (-180)) as [Hlt | Hge].
    + assert (Hs : int16 (delta + 360) = delta + 360)
        by (apply int16_small; int_unfold; lia).
      rewrite Hs.
      destruct (IH (delta + 360)) as (k & Hk & Heq & Hlb & Hk0 & Hub);
        [int_unfold; lia | lia |].
      exists (k + 1). lia.
    + exists 0. lia.
Qed.

(** Both loops together bring any [int16_t] into [-180, 180] by whole
    turns. *)
Lemma normalise_delta delta :
  is_int16 delta ->
  let d1 := while_above (Z.to_nat delta) delta in
  let d2 := while_below (Z.to_nat (- d1)) d1 in
  -180 <= d2 <= 180 /\ exists k, d2 = delta + 360 * k.
Proof.
  intros Hr d1 d2.
  destruct (while_above_spec (Z.to_nat delta) delta Hr ltac:(lia))
    as (k1 & Hk1 & Heq1 & Hub1 & Hz1 & Hlb1).
  fold d1 in Heq1, Hub1, Hlb1.
  assert (Hr1 : is_int16 d1) by (int_unfold; lia).
  destruct (while_below_spec (Z.to_nat (- d1)) d1 Hr1 ltac:(lia))
    as (k2 & Hk2 & Heq2 & Hlb2 & Hz2 & Hub2).
  fold d2 in Heq2, Hlb2, Hub2.
  split.
  - destruct (Z.le_gt_cases (-180) d1) as [Hc | Hc].
    + rewrite (Hz2 Hc) in Heq2. lia.
    + specialize (Hub2 Hc). lia.
  - exists (k2 - k1). lia.
Qed.

(** The delta of [_getDestPositionFromAngle]: within half a turn, and a
    whole number of turns away from [angle] minus the quotient
    [position / _angleMultiplier]. *)
Lemma angle_delta_spec m angle :
  _angleMultiplier m <> 0 ->
  exists delta,
    angle_delta m angle = Some delta
    /\ -180 <= delta <= 180
    /\ (delta - (angle - int32 (Z.quot (_encoder m) (_angleMultiplier m))))
         mod 360 = 0.
Proof.
  intros Hk. unfold angle_delta. rewrite getAngle_eq by assumption.
  set (q := int32 (Z.quot (_encoder m) (_angleMultiplier m))).
  cbn [mbind option_bind].
  pose proof (rem_360_bound angle) as Ha.
  pose proof (rem_360_bound q) as Hq.
  rewrite int16_sub_uint16 by (int_unfold; lia).
  set (d0 := Z.rem angle 360 - Z.rem q 360).
  destruct (normalise_delta d0) as [Hb [k Heq]]; [int_unfold; lia |].
  cbv zeta in Hb, Heq.
  eexists. split; [reflexivity |]. split; [exact Hb |].
  rewrite Heq. unfold d0.
  rewrite (Z.quot_rem' angle 360) at 2.
  rewrite (Z.quot_rem' q 360) at 2.
  apply Z.mod_divide; [lia |].
  exists (k - Z.quot angle 360 + Z.quot q 360). lia.
Qed.

End AngleFacts.

Section AngleClaims.
Context `{D : Double}.
Implicit Type m : BricktronicsMotor.

(** [setAngle] then [getAngle]: the remainder of [angle] by 360, with the
    sign of [angle], stored in a [uint16_t]. *)
Lemma setAngle_getAngle m angle :
  is_int8 (_angleMultiplier m) -> _angleMultiplier m <> 0 ->
  getAngle (setAngle m angle) = Some (uint16 (Z.rem angle 360)).
Proof.
  intros Hr Hk. rewrite getAngle_eq by exact Hk.
  unfold setAngle, setPosition. cbn [_encoder _angleMultiplier set_encoder].
  pose proof (rem_360_bound angle) as Ha.
  rewrite (int32_small (Z.rem angle 360 * _ )) by (int_unfold; nia).
  rewrite Z.quot_mul by exact Hk.
  rewrite int32_small by (int_unfold; lia).
  rewrite Z.rem_rem by lia. reflexivity.
Qed.

(** For an angle that is not negative this is the angle of the comment. *)
Lemma setAngle_getAngle_nonneg m angle :
  is_int8 (_angleMultiplier m) -> _angleMultiplier m <> 0 -> 0 <= angle ->
  getAngle (setAngle m angle) = Some (angle mod 360).
Proof.
  intros Hr Hk Ha. rewrite setAngle_getAngle by assumption.
  rewrite Z.rem_mod_nonneg by lia.
  pose proof (Z.mod_pos_bound angle 360 ltac:(lia)).
  f_equal. int_unfold. apply Z.mod_small. lia.
Qed.

(** C1 (the code departs from the claim).  One tick below zero, with the
    multiplier the constructor sets, [getAngle()] returns 65535: the
    remainder [-1] stored in the [uint16_t] result, not an angle of
    [0..359]. *)
Theorem getAngle_one_tick_below_zero
    (enPin dirPin pwmPin : Z) (junk : double * double * double)
    (board : gmap Z PinOut) (now : Z) :
  getAngle (setPosition (construct enPin dirPin pwmPin junk board now) (-1))
  = Some 65535.
Proof. reflexivity. Qed.

(** C2 (the code departs from the claim).  [setAngle(-60)] followed by
    [getAngle()] returns 65476, not [((-60 mod 360) + 360) mod 360 = 300]. *)
Theorem setAngle_getAngle_minus_60
    (enPin dirPin pwmPin : Z) (junk : double * double * double)
    (board : gmap Z PinOut) (now : Z) :
  getAngle (setAngle (construct enPin dirPin pwmPin junk board now) (-60))
  = Some 65476.
Proof. reflexivity. Qed.

(** C4.  Whatever the angle and the position, as long as the multiplier
    is not zero, [_getDestPositionFromAngle] ends its loops with a delta
    in [-180, 180] that differs from [angle - position / multiplier] by
    whole turns, and returns [position + delta * multiplier] (as an
    [int32_t]).  With output multiplier 1, stored as 2, and position 0,
    [goToAngle(90)] aims at tick 180 and [goToAngle(-90)] at tick -180. *)
Theorem getDestPositionFromAngle_shortest_path m angle :
  _angleMultiplier m <> 0 ->
  (exists delta,
      angle_delta m angle = Some delta
      /\ -180 <= delta <= 180
      /\ (delta - (angle - int32 (Z.quot (getPosition m) (_angleMultiplier m))))
           mod 360 = 0
      /\ _getDestPositionFromAngle m angle
         = Some (int32 (getPosition m + delta * _angleMultiplier m))
      /\ (is_int32 (getPosition m + delta * _angleMultiplier m) ->
          _getDestPositionFromAngle m angle
          = Some (getPosition m + delta * _angleMultiplier m)))
  /\ (let m1 := setAngleOutputMultiplier (setPosition m 0) 1 in
      _angleMultiplier m1 = 2
      /\ _getDestPositionFromAngle m1 90 = Some 180
      /\ _pidSetpoint <$> goToAngle m1 90 = Some (d_of_int 180)
      /\ _getDestPositionFromAngle m1 (-90) = Some (-180)
      /\ _pidSetpoint <$> goToAngle m1 (-90) = Some (d_of_int (-180))).
Proof.
  intros Hk. split.
  - destruct (angle_delta_spec m angle Hk) as (delta & Hd & Hb & Hc).
    exists delta. unfold _getDestPositionFromAngle, getPosition in *.
    rewrite Hd. cbn [mbind option_bind].
    repeat split; try assumption; try lia.
    intros Hr. rewrite int32_small by exact Hr. reflexivity.
  - repeat split; reflexivity.
Qed.

End AngleClaims.

(** From tick 700 (angle 340) to angle -90 (that is 270): 70 degrees back. *)
Lemma getDestPositionFromAngle_shortest_path_witness :
  _getDestPositionFromAngle (Bench.at_position 700) (-90) = Some 630.
Proof.
  destruct (getDestPositionFromAngle_shortest_path (Bench.at_position 700) (-90))
    as [(delta & Hd & _ & _ & Hp & _) _].
  - vm_compute. discriminate.
  - rewrite Hp. vm_compute in Hd. injection Hd as <-. reflexivity.
Defined.

(** ** The absolute value of a [double] *)

(** With the comparison and the negation as [d_bound_ok] asks, the test
    [abs(x) < t] of the code is the test [-t < x < t]. *)
Lemma d_abs_within `{Double} (t : Z) (x : double) :
  d_bound_ok t -> d_lt (d_abs x) (d_of_int t) = d_within t x.
Proof.
  intros (_ & _ & Hx). destruct (Hx x) as [Hpos Hneg].
  unfold d_abs, d_within.
  destruct (d_lt (d_of_int 0) x) eqn:H0.
  - rewrite (Hpos eq_refl). reflexivity.
  - destruct (Hneg eq_refl) as [Hopp Hup]. rewrite Hopp.
    destruct (d_lt (d_of_int (- t)) x) eqn:Hlow; [| reflexivity].
    rewrite (Hup eq_refl). reflexivity.
Qed.

(** Comparing two positive floats is comparing their negations the
    other way round. *)
Lemma SFltb_negated m e m' e' :
  SFltb (S754_finite false m e) (S754_finite false m' e')
  = SFltb (S754_finite true m' e') (S754_finite true m e).
Proof.
  unfold SFltb, SFcompare.
  rewrite (Z.compare_antisym e e').
  change (Pos.compare_cont Eq m' m) with (Pos.compare m' m).
  change (Pos.compare_cont Eq m m') with (Pos.compare m m').
  rewrite (Pos.compare_antisym m m').
  destruct (e ?= e'); cbn; [| reflexivity | reflexivity].
  destruct (m ?= m')%positive; reflexivity.
Qed.

(** An integer bound that the format holds as a finite float meets
    [d_bound_ok]. *)
Lemma IEEE_bound_ok (prec emax t : Z) (mt : positive) (et : Z) :
  IEEE.of_int prec emax 0 = S754_zero false ->
  IEEE.of_int prec emax t = S754_finite false mt et ->
  IEEE.of_int prec emax (- t) = S754_finite true mt et ->
  @d_bound_ok (IEEE.ops prec emax) t.
Proof.
  intros H0 Ht Hmt. unfold d_bound_ok. cbn [d_lt d_opp d_of_int IEEE.ops double].
  rewrite H0, Ht, Hmt. split; [reflexivity |]. split; [reflexivity |].
  intros x. split.
  - destruct x as [[|] | [|] | | [|] m e]; cbn; try discriminate; reflexivity.
  - destruct x as [[|] | [|] | | [|] m e]; cbn; try discriminate; intros _;
      try (split; [reflexivity | try discriminate; reflexivity]).
    split; [apply SFltb_negated | reflexivity].
Qed.

(** The bounds 5 and 30 of the header in the two IEEE formats. *)
Lemma binary32_bound_ok : @d_bound_ok IEEE.binary32 5 /\ @d_bound_ok IEEE.binary32 30.
Proof.
  split.
  - apply (IEEE_bound_ok 24 128 5 10485760 (-21)); reflexivity.
  - apply (IEEE_bound_ok 24 128 30 15728640 (-19)); reflexivity.
Qed.

Lemma binary64_bound_ok : @d_bound_ok IEEE.binary64 5 /\ @d_bound_ok IEEE.binary64 30.
Proof.
  split.
  - apply (IEEE_bound_ok 53 1024 5 5629499534213120 (-50)); reflexivity.
  - apply (IEEE_bound_ok 53 1024 30 8444249301319680 (-48)); reflexivity.
Qed.

(** ** Settling *)

Section SettleClaims.
Context `{D : Double}.
Implicit Type m : BricktronicsMotor.

(** The two conditions of [settledAtPosition], the first one as the
    32-bit arithmetic computes it. *)
Lemma settledAtPosition_eq m position :
  settledAtPosition m position = true
  <-> abs32 (int32 (getPosition m - position)) < _epsilon m
      /\ d_lt (d_abs (_pidOutput m)) (d_of_int 30) = true.
Proof.
  unfold settledAtPosition. rewrite andb_true_iff, Z.ltb_lt. reflexivity.
Qed.

(** C5.  For a [double] whose comparison and negation are as
    [d_bound_ok 30] asks, and as long as [getPosition() - position] fits
    the [int32_t] it is computed in: [settledAtPosition(position)] is
    true exactly when [|getPosition() - position| < _epsilon] and the
    output lies strictly between -30 and 30.  At a distance of exactly
    [_epsilon] it is false, and at [_epsilon - 1] with a zero output it
    is true. *)
Theorem settledAtPosition_iff m position :
  d_bound_ok 30 ->
  Z.abs (getPosition m - position) < 2147483648 ->
  (settledAtPosition m position = true
   <-> Z.abs (getPosition m - position) < _epsilon m
       /\ d_within 30 (_pidOutput m) = true)
  /\ (Z.abs (getPosition m - position) = _epsilon m ->
      settledAtPosition m position = false)
  /\ (Z.abs (getPosition m - position) = _epsilon m - 1 ->
      _pidOutput m = d_of_int 0 ->
      settledAtPosition m position = true).
Proof.
  intros Hord Hfit.
  assert (Hiff : settledAtPosition m position = true
                 <-> Z.abs (getPosition m - position) < _epsilon m
                     /\ d_within 30 (_pidOutput m) = true).
  { rewrite settledAtPosition_eq, abs32_small by exact Hfit.
    rewrite (d_abs_within 30 (_pidOutput m) Hord). reflexivity. }
  split; [exact Hiff |]. split.
  - intros Heq. apply not_true_is_false. rewrite Hiff. lia.
  - intros Heq Hout. apply Hiff. rewrite Hout. split; [lia |].
    destruct Hord as (Hlow & Hup & _). unfold d_within.
    rewrite Hlow, Hup. reflexivity.
Qed.

End SettleClaims.

(** Zero is below the settled threshold in both IEEE formats. *)
Lemma IEEE_zero_settled :
  @d_lt IEEE.binary32 (d_abs (d_of_int 0)) (d_of_int 30) = true
  /\ @d_lt IEEE.binary64 (d_abs (d_of_int 0)) (d_of_int 30) = true.
Proof. split; reflexivity. Qed.

(** With the default epsilon 5: settled four ticks away from the target
    with a zero output, not settled five ticks away; at the target,
    settled with an output of 29 or -29, not settled with 30, -30 or
    -200. *)
Lemma settledAtPosition_iff_witness :
  settledAtPosition (Bench.at_position 4) 0 = true
  /\ settledAtPosition (Bench.at_position 5) 0 = false
  /\ settledAtPosition (bench_output 0 29) 0 = true
  /\ settledAtPosition (bench_output 0 (-29)) 0 = true
  /\ settledAtPosition (bench_output 0 30) 0 = false
  /\ settledAtPosition (bench_output 0 (-30)) 0 = false
  /\ settledAtPosition (bench_output 0 (-200)) 0 = false.
Proof.
  pose proof (proj2 binary32_bound_ok) as Hord.
  assert (Hfit : forall pos out,
             -1000 <= pos <= 1000 ->
             Z.abs (getPosition (bench_output pos out) - 0) < 2147483648).
  { intros pos out Hp. change (getPosition (bench_output pos out)) with pos. lia. }
  assert (Hno : forall out,
             @d_within IEEE.binary32 30 (d_of_int out) = false ->
             settledAtPosition (bench_output 0 out) 0 = false).
  { intros out Hout. apply not_true_is_false. intros Hs.
    apply (settledAtPosition_iff (bench_output 0 out) 0 Hord
             (Hfit 0 out ltac:(lia))) in Hs as [_ Hin].
    change (_pidOutput (bench_output 0 out))
      with (@d_of_int IEEE.binary32 out) in Hin.
    rewrite Hout in Hin. discriminate. }
  assert (Hyes : forall out,
             @d_within IEEE.binary32 30 (d_of_int out) = true ->
             settledAtPosition (bench_output 0 out) 0 = true).
  { intros out Hout.
    apply (proj1 (settledAtPosition_iff (bench_output 0 out) 0 Hord
                    (Hfit 0 out ltac:(lia)))).
    split; [vm_compute; reflexivity | exact Hout]. }
  split; [| split; [| split; [| split; [| split; [| split]]]]].
  - apply (proj2 (proj2 (settledAtPosition_iff (bench_output 4 0) 0 Hord
                           (Hfit 4 0 ltac:(lia)))));
      reflexivity.
  - apply (proj1 (proj2 (settledAtPosition_iff (bench_output 5 0) 0 Hord
                           (Hfit 5 0 ltac:(lia))))).
    reflexivity.
  - apply Hyes. reflexivity.
  - apply Hyes. reflexivity.
  - apply Hno. reflexivity.
  - apply Hno. reflexivity.
  - apply Hno. reflexivity.
Defined.

(** ** Raw drive *)

Section DriveClaims.
Context `{D : Double}.
Implicit Type m : BricktronicsMotor.

Lemma stop_pins_low m :
  pins (stop m) !! _enPin m = Some LOW
  /\ pins (stop m) !! _dirPin m = Some LOW
  /\ pins (stop m) !! _pwmPin m = Some LOW.
Proof.
  unfold stop. cbn.
  repeat split; rewrite !lookup_insert; repeat case_decide; congruence.
Qed.

Lemma stop_drive_stopped m : drive_stopped (stop m).
Proof. exact (stop_pins_low m). Qed.

Lemma stop_io m :
  io (stop m)
  = io m ++ [DigitalWrite (_enPin m) LOW; DigitalWrite (_dirPin m) LOW;
             DigitalWrite (_pwmPin m) LOW].
Proof. unfold stop. cbn. rewrite <- !app_assoc. reflexivity. Qed.

Lemma rawSetSpeed_zero m : rawSetSpeed m 0 = stop (set_rawSpeed 0 m).
Proof. reflexivity. Qed.

(** [rawSetSpeed] writes [_rawSpeed], the pins and the I/O log only. *)
Lemma rawSetSpeed_frame m s :
  let m' := rawSetSpeed m s in
  _enPin m' = _enPin m /\ _dirPin m' = _dirPin m /\ _pwmPin m' = _pwmPin m
  /\ _pid m' = _pid m /\ _pidMode m' = _pidMode m
  /\ _pidSetpoint m' = _pidSetpoint m /\ _pidInput m' = _pidInput m
  /\ _pidOutput m' = _pidOutput m
  /\ _pidKp m' = _pidKp m /\ _pidKi m' = _pidKi m /\ _pidKd m' = _pidKd m
  /\ _encoder m' = _encoder m /\ _angleMultiplier m' = _angleMultiplier m
  /\ _epsilon m' = _epsilon m /\ timer0_millis m' = timer0_millis m
  /\ _rawSpeed m' = uint16 s.
Proof.
  unfold rawSetSpeed. cbv zeta.
  destruct (s =? 0); [| destruct (s <? 0)]; repeat split; reflexivity.
Qed.

(** C9.  Whatever speed was commanded before, [rawSetSpeed(0)] is a full
    stop: it stores 0, writes LOW to the enable, direction and PWM pins
    and leaves all three low. *)
Theorem rawSetSpeed_zero_stops m (prior : Z) :
  let m' := rawSetSpeed (rawSetSpeed m prior) 0 in
  pins m' !! _enPin m = Some LOW
  /\ pins m' !! _dirPin m = Some LOW
  /\ pins m' !! _pwmPin m = Some LOW
  /\ io m' = io (rawSetSpeed m prior)
             ++ [DigitalWrite (_enPin m) LOW; DigitalWrite (_dirPin m) LOW;
                 DigitalWrite (_pwmPin m) LOW]
  /\ rawGetSpeed m' = 0
  /\ drive_stopped (rawSetSpeed m 0).
Proof.
  cbv zeta. rewrite !rawSetSpeed_zero.
  destruct (rawSetSpeed_frame m prior) as (He & Hd & Hp & _).
  pose proof (stop_pins_low (set_rawSpeed 0 (rawSetSpeed m prior)))
    as (H1 & H2 & H3).
  cbn [_enPin _dirPin _pwmPin set_rawSpeed] in H1, H2, H3.
  rewrite He in H1. rewrite Hd in H2. rewrite Hp in H3.
  repeat split; try assumption.
  - rewrite stop_io. cbn [io _enPin _dirPin _pwmPin set_rawSpeed].
    rewrite He, Hd, Hp. reflexivity.
  - apply (stop_drive_stopped (set_rawSpeed 0 m)).
  - apply (stop_drive_stopped (set_rawSpeed 0 m)).
  - apply (stop_drive_stopped (set_rawSpeed 0 m)).
Qed.

(** [stop] writes the pins and the I/O log only. *)
Lemma stop_frame m :
  let m' := stop m in
  _enPin m' = _enPin m /\ _dirPin m' = _dirPin m /\ _pwmPin m' = _pwmPin m
  /\ _rawSpeed m' = _rawSpeed m
  /\ _pid m' = _pid m /\ _pidMode m' = _pidMode m
  /\ _pidSetpoint m' = _pidSetpoint m /\ _pidInput m' = _pidInput m
  /\ _pidOutput m' = _pidOutput m
  /\ _pidKp m' = _pidKp m /\ _pidKi m' = _pidKi m /\ _pidKd m' = _pidKd m
  /\ _encoder m' = _encoder m /\ _angleMultiplier m' = _angleMultiplier m
  /\ _epsilon m' = _epsilon m /\ timer0_millis m' = timer0_millis m.
Proof. repeat split; reflexivity. Qed.

Lemma stop_settledAtPosition m position :
  settledAtPosition (stop m) position = settledAtPosition m position.
Proof. reflexivity. Qed.

Lemma rawSetSpeed_rawGetSpeed m s : is_int16 s -> rawGetSpeed (rawSetSpeed m s) = s.
Proof.
  intros Hs. unfold rawGetSpeed.
  destruct (rawSetSpeed_frame m s) as (_ & _ & _ & _ & _ & _ & _ & _ & _ & _
    & _ & _ & _ & _ & _ & Hr).
  rewrite Hr, int16_uint16. apply int16_small, Hs.
Qed.

End DriveClaims.

(** ** update() *)

Section UpdateClaims.
Context `{D : Double}.
Variable env : Environment.
Implicit Type m : BricktronicsMotor.

(** What [update] does in position mode, step by step. *)
Lemma update_position m :
  _pidMode m = BRICKTRONICS_MOTOR_PID_MODE_POSITION ->
  update env m
  = let m1 := set_pidInput (d_of_int (_encoder m)) m in
    let m2 :=
      if d_lt (d_abs (d_sub (_pidInput m1) (_pidSetpoint m1))) (d_of_int 5)
      then pidUpdateTuningsConservative m1 (d_of_int 8)
      else pidUpdateTunings m1 in
    let m3 := pid_Compute env m2 in
    rawSetSpeed m3 (int16 (d_to_int (_pidOutput m3))).
Proof. intros Hmode. unfold update. rewrite Hmode. reflexivity. Qed.

(** In every other mode it returns the object as it is. *)
Lemma update_other_mode m :
  _pidMode m <> BRICKTRONICS_MOTOR_PID_MODE_POSITION -> update env m = m.
Proof.
  intros Hmode. unfold update.
  destruct (Z.eqb_spec (_pidMode m) BRICKTRONICS_MOTOR_PID_MODE_POSITION);
    [contradiction |].
  destruct (_pidMode m =? BRICKTRONICS_MOTOR_PID_MODE_SPEED); reflexivity.
Qed.

(** [update] leaves the pin numbers, the mode, the set point, the gains,
    the counters, the multiplier and epsilon alone. *)
Lemma update_frame m :
  let m' := update env m in
  _enPin m' = _enPin m /\ _dirPin m' = _dirPin m /\ _pwmPin m' = _pwmPin m
  /\ _pidMode m' = _pidMode m /\ _pidSetpoint m' = _pidSetpoint m
  /\ gains m' = gains m
  /\ _encoder m' = _encoder m /\ _angleMultiplier m' = _angleMultiplier m
  /\ _epsilon m' = _epsilon m /\ timer0_millis m' = timer0_millis m.
Proof.
  cbv zeta.
  destruct (Z.eq_dec (_pidMode m) BRICKTRONICS_MOTOR_PID_MODE_POSITION)
    as [Hmode | Hmode].
  - rewrite (update_position m Hmode). cbv zeta.
    match goal with |- context [rawSetSpeed ?x ?s] =>
      destruct (rawSetSpeed_frame x s)
        as (-> & -> & -> & _ & -> & -> & _ & _ & Hp & Hi & Hd & -> & -> & -> & -> & _)
    end.
    unfold gains. rewrite Hp, Hi, Hd.
    destruct (d_lt _ _); repeat split; reflexivity.
  - rewrite (update_other_mode m Hmode). repeat split; reflexivity.
Qed.

(** C6.  For a [double] whose comparison and negation are as
    [d_bound_ok 5] asks: in position mode [update()] hands the engine one
    set of tunings and then computes.  The tunings are the stored gains
    divided by 8 when [_pidInput - _pidSetpoint], for the input just read
    from the encoder, lies strictly between -5 and 5, and the stored
    gains themselves otherwise.  The stored gains are the same after
    [update()], and after [pidUpdateTuningsConservative()] with any
    divisor. *)
Theorem update_tunings m :
  d_bound_ok 5 ->
  _pidMode m = BRICKTRONICS_MOTOR_PID_MODE_POSITION ->
  let input := d_of_int (_encoder m) in
  let near := d_within 5 (d_sub input (_pidSetpoint m)) in
  (near = true ->
   _pid (update env m)
   = _pid m ++ [SetTunings (d_div (_pidKp m) (d_of_int 8))
                  (d_div (_pidKi m) (d_of_int 8))
                  (d_div (_pidKd m) (d_of_int 8));
                Compute input (_pidSetpoint m)])
  /\ (near = false ->
      _pid (update env m)
      = _pid m ++ [SetTunings (_pidKp m) (_pidKi m) (_pidKd m);
                   Compute input (_pidSetpoint m)])
  /\ gains (update env m) = gains m
  /\ (forall divisor, gains (pidUpdateTuningsConservative m divisor) = gains m).
Proof.
  intros Hord Hmode input near.
  assert (Hpid : _pid (update env m)
                 = _pid m ++ [if near
                              then SetTunings (d_div (_pidKp m) (d_of_int 8))
                                     (d_div (_pidKi m) (d_of_int 8))
                                     (d_div (_pidKd m) (d_of_int 8))
                              else SetTunings (_pidKp m) (_pidKi m) (_pidKd m);
                              Compute input (_pidSetpoint m)]).
  { rewrite (update_position m Hmode). cbv zeta.
    match goal with |- context [rawSetSpeed ?x ?s] =>
      destruct (rawSetSpeed_frame x s) as (_ & _ & _ & -> & _)
    end.
    cbn [_pidInput _pidSetpoint set_pidInput]. fold input.
    rewrite (d_abs_within 5 (d_sub input (_pidSetpoint m)) Hord). fold near.
    destruct near; cbn; rewrite <- app_assoc; reflexivity. }
  repeat split.
  - intros Hn. rewrite Hpid, Hn. reflexivity.
  - intros Hn. rewrite Hpid, Hn. reflexivity.
  - apply update_frame.
Qed.

(** C7.  With [_pidMode] disabled, [update()] returns the object it was
    given: no member changes, the engine receives no call, no pin is
    written. *)
Theorem update_disabled m :
  _pidMode m = BRICKTRONICS_MOTOR_PID_MODE_DISABLED ->
  update env m = m
  /\ _pid (update env m) = _pid m
  /\ io (update env m) = io m
  /\ pins (update env m) = pins m.
Proof.
  intros Hmode.
  assert (Hid : update env m = m).
  { apply update_other_mode. rewrite Hmode. discriminate. }
  rewrite Hid. repeat split; reflexivity.
Qed.

(** The constructor leaves the mode disabled. *)
Lemma construct_disabled enPin dirPin pwmPin junk board now :
  _pidMode (construct enPin dirPin pwmPin junk board now)
  = BRICKTRONICS_MOTOR_PID_MODE_DISABLED.
Proof. reflexivity. Qed.

End UpdateClaims.

(** ** The blocking waits *)

Section WaitFacts.
Context `{D : Double}.
Variable env : Environment.
Implicit Type m : BricktronicsMotor.

Lemma interrupts_settled_output m :
  _pidOutput (interrupts env m) = _pidOutput m
  /\ _rawSpeed (interrupts env m) = _rawSpeed m
  /\ _pidMode (interrupts env m) = _pidMode m.
Proof. repeat split; reflexivity. Qed.

Lemma interrupts_clock m : is_uint32 (millis (interrupts env m)).
Proof. apply uint32_range. Qed.

Lemma interrupts_steady m :
  clock_steady env -> is_uint32 (millis m) -> millis m <= millis (interrupts env m).
Proof.
  intros Hs Hr. unfold millis, interrupts in *. cbn.
  specialize (Hs m Hr). rewrite uint32_small by (int_unfold; lia). lia.
Qed.

Lemma update_speed_commanded m :
  _pidMode m = BRICKTRONICS_MOTOR_PID_MODE_POSITION ->
  speed_commanded (update env m).
Proof.
  intros Hmode. unfold speed_commanded. rewrite (update_position env m Hmode).
  cbv zeta.
  match goal with |- context [rawSetSpeed ?x ?s] =>
    rewrite (rawSetSpeed_rawGetSpeed x s) by apply int16_range;
    destruct (rawSetSpeed_frame x s) as (_ & _ & _ & _ & _ & _ & _ & -> & _)
  end.
  reflexivity.
Qed.

(** A property kept by the interrupts and by [update] holds when the
    loop of [goToPositionWait] ends, and the motor has then settled. *)
Lemma wait_loop_exit (P : BricktronicsMotor -> Prop) :
  (forall m, P m -> P (interrupts env m)) ->
  (forall m, P m -> P (update env m)) ->
  forall fuel position m m1,
    P m -> wait_loop env fuel position m = Some m1 ->
    P m1 /\ settledAtPosition m1 position = true.
Proof.
  intros Hi Hu fuel position.
  induction fuel as [| fuel IH]; intros m m1 HP Hrun; [discriminate |].
  cbn [wait_loop] in Hrun.
  destruct (settledAtPosition (interrupts env m) position) eqn:Hs.
  - injection Hrun as <-. auto.
  - apply (IH _ _ (Hu _ (Hi _ (Hi _ HP))) Hrun).
Qed.

(** Either the loop ended on its first test, or [update] ran and the
    stored speed is the one it commanded last. *)
Lemma wait_loop_speed fuel position m m1 :
  _pidMode m = BRICKTRONICS_MOTOR_PID_MODE_POSITION ->
  wait_loop env fuel position m = Some m1 ->
  m1 = interrupts env m \/ speed_commanded m1.
Proof.
  intros Hmode Hrun. destruct fuel as [| fuel]; [discriminate |].
  cbn [wait_loop] in Hrun.
  destruct (settledAtPosition (interrupts env m) position).
  - injection Hrun as <-. left. reflexivity.
  - right.
    apply (wait_loop_exit
             (fun m => _pidMode m = BRICKTRONICS_MOTOR_PID_MODE_POSITION
                       /\ speed_commanded m)) in Hrun.
    + apply Hrun.
    + intros m2 [Hm Hc]. split; [exact Hm | exact Hc].
    + intros m2 [Hm _]. split.
      * destruct (update_frame env m2) as (_ & _ & _ & -> & _). exact Hm.
      * apply update_speed_commanded, Hm.
    + split.
      * destruct (update_frame env (interrupts env (interrupts env m)))
          as (_ & _ & _ & -> & _). exact Hmode.
      * apply update_speed_commanded. exact Hmode.
Qed.

(** More fuel does not change a result. *)
Lemma wait_loop_more_fuel fuel extra position m m1 :
  wait_loop env fuel position m = Some m1 ->
  wait_loop env (fuel + extra) position m = Some m1.
Proof.
  revert m. induction fuel as [| fuel IH]; intros m Hrun; [discriminate |].
  cbn [wait_loop Nat.add] in *.
  destruct (settledAtPosition (interrupts env m) position); [exact Hrun |].
  apply IH, Hrun.
Qed.

(** The loop of [goToPositionWaitTimeout] ends either on a settled motor
    or on a clock that has reached the deadline. *)
Lemma timeout_loop_exit (P : BricktronicsMotor -> Prop) :
  (forall m, P m -> P (interrupts env m)) ->
  (forall m, P m -> P (update env m)) ->
  forall fuel position deadline m m1,
    P m -> timeout_loop env fuel position deadline m = Some m1 ->
    P m1
    /\ (settledAtPosition m1 position = true \/ deadline <= millis m1).
Proof.
  intros Hi Hu fuel position deadline.
  induction fuel as [| fuel IH]; intros m m1 HP Hrun; [discriminate |].
  cbn [timeout_loop] in Hrun.
  destruct (settledAtPosition (interrupts env m) position) eqn:Hs.
  - injection Hrun as <-. auto.
  - destruct (Z.ltb_spec (millis (interrupts env (interrupts env m))) deadline).
    + apply (IH _ _ (Hu _ (Hi _ (Hi _ (Hi _ HP)))) Hrun).
    + injection Hrun as <-. split; [auto | right; assumption].
Qed.

Lemma timeout_loop_more_fuel fuel extra position deadline m m1 :
  timeout_loop env fuel position deadline m = Some m1 ->
  timeout_loop env (fuel + extra) position deadline m = Some m1.
Proof.
  revert m. induction fuel as [| fuel IH]; intros m Hrun; [discriminate |].
  cbn [timeout_loop Nat.add] in *.
  destruct (settledAtPosition (interrupts env m) position); [exact Hrun |].
  destruct (millis (interrupts env (interrupts env m)) <? deadline);
    [apply IH, Hrun | exact Hrun].
Qed.

(** With a deadline that has already come the loop ends in its first
    turn. *)
Lemma timeout_loop_due fuel position deadline m :
  clock_steady env -> is_uint32 (millis m) -> deadline <= millis m ->
  exists m1, timeout_loop env (S fuel) position deadline m = Some m1.
Proof.
  intros Hs Hr Hd. cbn [timeout_loop].
  destruct (settledAtPosition (interrupts env m) position); [eauto |].
  pose proof (interrupts_steady m Hs Hr).
  pose proof (interrupts_steady (interrupts env m) Hs (interrupts_clock m)).
  destruct (Z.ltb_spec (millis (interrupts env (interrupts env m))) deadline);
    [lia | eauto].
Qed.

End WaitFacts.

Section WaitClaims.
Context `{D : Double}.
Variable env : Environment.
Implicit Type m : BricktronicsMotor.

Lemma goToPosition_mode m position :
  _pidMode (goToPosition m position) = BRICKTRONICS_MOTOR_PID_MODE_POSITION.
Proof. reflexivity. Qed.

Lemma interrupts_drive_stopped m :
  drive_stopped m -> drive_stopped (interrupts env m).
Proof. intros H. exact H. Qed.

Lemma position_mode_kept_by_update m :
  _pidMode m = BRICKTRONICS_MOTOR_PID_MODE_POSITION ->
  _pidMode (update env m) = BRICKTRONICS_MOTOR_PID_MODE_POSITION.
Proof.
  intros Hm. destruct (update_frame env m) as (_ & _ & _ & -> & _). exact Hm.
Qed.

Lemma clock_in_range_kept_by_update m :
  is_uint32 (millis m) -> is_uint32 (millis (update env m)).
Proof.
  intros Hm. unfold millis in *.
  destruct (update_frame env m) as (_ & _ & _ & _ & _ & _ & _ & _ & _ & ->).
  exact Hm.
Qed.

(** C8.  When [goToPositionWait(position)] returns, the object it leaves
    passes [settledAtPosition(position)], its three pins are low, and
    [_pidMode] is still the position mode. *)
Theorem goToPositionWait_returns fuel m position m' :
  goToPositionWait env fuel m position = Some m' ->
  settledAtPosition m' position = true
  /\ drive_stopped m'
  /\ _pidMode m' = BRICKTRONICS_MOTOR_PID_MODE_POSITION.
Proof.
  unfold goToPositionWait. cbv zeta.
  destruct (wait_loop env fuel position (goToPosition m position))
    as [m1 |] eqn:Hrun; [| discriminate].
  cbn [mbind option_bind]. intros [= <-].
  apply (wait_loop_exit env
           (fun m => _pidMode m = BRICKTRONICS_MOTOR_PID_MODE_POSITION))
    in Hrun as [Hmode Hs].
  - split; [| split].
    + rewrite stop_settledAtPosition. exact Hs.
    + apply stop_drive_stopped.
    + exact Hmode.
  - intros m2 Hm. exact Hm.
  - apply position_mode_kept_by_update.
  - apply goToPosition_mode.
Qed.

(** C10.  [stop()] leaves [_rawSpeed] as it is.  After [rawSetSpeed(s)]
    and [stop()], [rawGetSpeed()] returns [s] while the three pins are
    low.  The same holds for the [stop()] that ends [goToPositionWait]
    and [goToPositionWaitTimeout]: the speed read afterwards is the one
    stored when the loop ended (the speed [update] commanded last, if
    [update] ran at all), and the pins are low. *)
Theorem stop_keeps_rawSpeed m s fuel position timeoutMS :
  is_int16 s -> s <> 0 ->
  _rawSpeed (stop m) = _rawSpeed m
  /\ rawGetSpeed (stop (rawSetSpeed m s)) = s
  /\ drive_stopped (stop (rawSetSpeed m s))
  /\ (forall m',
         goToPositionWait env fuel m position = Some m' ->
         exists m1,
           wait_loop env fuel position (goToPosition m position) = Some m1
           /\ m' = stop m1
           /\ rawGetSpeed m' = rawGetSpeed m1
           /\ (rawGetSpeed m' = rawGetSpeed m \/ speed_commanded m')
           /\ drive_stopped m')
  /\ (forall r m',
         goToPositionWaitTimeout env fuel m position timeoutMS = Some (r, m') ->
         exists m1,
           timeout_loop env fuel position
             (uint32 (timeoutMS + millis (interrupts env (goToPosition m position))))
             (interrupts env (goToPosition m position)) = Some m1
           /\ m' = interrupts env (stop m1)
           /\ rawGetSpeed m' = rawGetSpeed m1
           /\ drive_stopped m').
Proof.
  intros Hs Hnz. split; [reflexivity |]. split; [| split; [| split]].
  - change (rawGetSpeed (stop (rawSetSpeed m s)))
      with (rawGetSpeed (rawSetSpeed m s)).
    apply rawSetSpeed_rawGetSpeed, Hs.
  - apply stop_drive_stopped.
  - intros m'. unfold goToPositionWait. cbv zeta.
    destruct (wait_loop env fuel position (goToPosition m position))
      as [m1 |] eqn:Hrun; [| discriminate].
    cbn [mbind option_bind]. intros [= <-].
    exists m1. split; [reflexivity |]. split; [reflexivity |].
    split; [reflexivity |]. split; [| apply stop_drive_stopped].
    destruct (wait_loop_speed env _ _ _ _ (goToPosition_mode m position) Hrun)
      as [-> | Hc].
    + left. reflexivity.
    + right. exact Hc.
  - intros r m'. unfold goToPositionWaitTimeout. cbv zeta.
    destruct (timeout_loop env fuel position _ _) as [m1 |] eqn:Hrun;
      [| discriminate].
    cbn [mbind option_bind]. intros Hret.
    exists m1. split; [reflexivity |].
    assert (Hm' : m' = interrupts env (stop m1)).
    { destruct (_ <=? _) in Hret; injection Hret as _ <-; reflexivity. }
    subst m'. split; [reflexivity |]. split; [reflexivity |].
    apply interrupts_drive_stopped, stop_drive_stopped.
Qed.

(** How [goToPositionWaitTimeout] decides its result.  It always stops the
    drive before it returns, and returns true exactly when the clock,
    read once more after the stop, is still below the deadline (the time
    of the call plus [timeoutMS], as a [uint32_t]).  On a clock that does
    not wrap that is: exactly when the loop ended on a motor settled
    before the deadline and the deadline has not come by that last read.
    With [timeoutMS = 0] the call returns false, with the drive stopped,
    whether or not the motor had settled. *)
Theorem goToPositionWaitTimeout_result fuel m position timeoutMS :
  let start := interrupts env (goToPosition m position) in
  let deadline := uint32 (timeoutMS + millis start) in
  (forall r m',
      goToPositionWaitTimeout env fuel m position timeoutMS = Some (r, m') ->
      drive_stopped m'
      /\ (r = true <-> millis m' < deadline)
      /\ (clock_steady env ->
          (r = true
           <-> settles_before_deadline env fuel m position timeoutMS
               /\ millis m' < deadline)))
  /\ (clock_steady env ->
      exists m',
        goToPositionWaitTimeout env (S fuel) m position 0 = Some (false, m')
        /\ drive_stopped m').
Proof.
  intros start deadline. split.
  - intros r m'. unfold goToPositionWaitTimeout. cbv zeta.
    fold start. fold deadline.
    destruct (timeout_loop env fuel position deadline start)
      as [m1 |] eqn:Hrun; [| discriminate].
    cbn [mbind option_bind]. intros Hret.
    assert (Hm' : m' = interrupts env (stop m1)
                  /\ r = negb (deadline <=? millis (interrupts env (stop m1)))).
    { destruct (_ <=? _) in Hret |- *; injection Hret as <- <-; auto. }
    destruct Hm' as [-> ->].
    assert (Hiff : negb (deadline <=? millis (interrupts env (stop m1))) = true
                   <-> millis (interrupts env (stop m1)) < deadline).
    { rewrite negb_true_iff, Z.leb_gt. reflexivity. }
    split; [apply interrupts_drive_stopped, stop_drive_stopped |].
    split; [exact Hiff |].
    intros Hsteady. split; [| intros [_ Hlt]; apply Hiff, Hlt].
    intros Htrue. apply Hiff in Htrue. split; [| exact Htrue].
    unfold settles_before_deadline. cbv zeta.
    fold start. fold deadline. exists m1. split; [exact Hrun |].
    apply (timeout_loop_exit env (fun m => is_uint32 (millis m)))
      in Hrun as [Hr Hexit].
    + pose proof (interrupts_steady env (stop m1) Hsteady Hr) as Hle.
      change (millis (stop m1)) with (millis m1) in Hle.
      destruct Hexit as [Hset | Hlate]; [split; [exact Hset | lia] | lia].
    + intros m2 _. apply interrupts_clock.
    + apply clock_in_range_kept_by_update.
    + apply interrupts_clock.
  - intros Hsteady. unfold goToPositionWaitTimeout. cbv zeta. fold start.
    assert (Hstart : is_uint32 (millis start)) by apply interrupts_clock.
    rewrite (uint32_small (0 + millis start)) by exact Hstart.
    destruct (timeout_loop_due env fuel position (0 + millis start) start
                Hsteady Hstart ltac:(lia)) as [m1 Hrun].
    rewrite Hrun. cbn [mbind option_bind].
    apply (timeout_loop_exit env
             (fun m => is_uint32 (millis m) /\ millis start <= millis m))
      in Hrun as [[Hr Hle] _].
    + pose proof (interrupts_steady env (stop m1) Hsteady Hr) as Hle'.
      change (millis (stop m1)) with (millis m1) in Hle'.
      destruct (Z.leb_spec (0 + millis start) (millis (interrupts env (stop m1))));
        [| lia].
      eexists. split; [reflexivity |].
      apply interrupts_drive_stopped, stop_drive_stopped.
    + intros m2 [Hr2 Hle2]. split; [apply interrupts_clock |].
      pose proof (interrupts_steady env m2 Hsteady Hr2). lia.
    + intros m2 [Hr2 Hle2]. split; [apply clock_in_range_kept_by_update, Hr2 |].
      unfold millis in *.
      destruct (update_frame env m2) as (_ & _ & _ & _ & _ & _ & _ & _ & _ & ->).
      exact Hle2.
    + split; [exact Hstart | lia].
Qed.

End WaitClaims.

Lemma calm_clock_steady : clock_steady Plant.calm.
Proof. intros m Hr. unfold is_uint32 in Hr. cbn. lia. Qed.

Lemma servo_clock_steady : clock_steady Plant.servo.
Proof. intros m Hr. unfold is_uint32 in Hr. cbn. lia. Qed.

(** A motor that does not move never lets [goToPositionWait] return. *)
Lemma goToPositionWait_jammed fuel :
  goToPositionWait Plant.calm fuel Bench.fresh 100 = None.
Proof.
  unfold goToPositionWait. cbv zeta.
  assert (Hloop : forall m : @BricktronicsMotor IEEE.binary32,
             _encoder m = 0 -> _epsilon m = 5 ->
             wait_loop Plant.calm fuel 100 m = None).
  { induction fuel as [| fuel IH]; intros m He Hp; [reflexivity |].
    cbn [wait_loop].
    assert (Hs : settledAtPosition (interrupts Plant.calm m) 100 = false).
    { unfold settledAtPosition, getPosition, interrupts. cbn. rewrite He, Hp.
      reflexivity. }
    rewrite Hs. apply IH.
    - destruct (update_frame Plant.calm
                  (interrupts Plant.calm (interrupts Plant.calm m)))
        as (_ & _ & _ & _ & _ & _ & -> & _).
      cbn. rewrite He. reflexivity.
    - destruct (update_frame Plant.calm
                  (interrupts Plant.calm (interrupts Plant.calm m)))
        as (_ & _ & _ & _ & _ & _ & _ & _ & -> & _).
      exact Hp. }
  rewrite Hloop; reflexivity.
Qed.

(** On a clock that advances, the deadline bounds the wait: the loop of
    [goToPositionWaitTimeout] ends within as many turns as there are
    milliseconds left, and the call returns. *)
Section WaitTermination.
Context `{D : Double}.
Variable env : Environment.
Implicit Type m : BricktronicsMotor.

Lemma clock_advances_steady : clock_advances env -> clock_steady env.
Proof. intros Ha m Hr. specialize (Ha m Hr). unfold is_uint32 in Hr. lia. Qed.

Lemma interrupts_advances m :
  clock_advances env -> is_uint32 (millis m) ->
  Z.min (millis m + 1) 4294967295 <= millis (interrupts env m).
Proof.
  intros Ha Hr. unfold millis, interrupts in *. cbn.
  specialize (Ha m Hr). rewrite uint32_small by (int_unfold; lia). lia.
Qed.

Lemma timeout_loop_returns fuel position deadline m :
  clock_advances env -> is_uint32 (millis m) -> deadline <= 4294967295 ->
  deadline - millis m <= Z.of_nat fuel ->
  exists m1, timeout_loop env (S fuel) position deadline m = Some m1.
Proof.
  intros Ha. pose proof (clock_advances_steady Ha) as Hs.
  revert m. induction fuel as [| fuel IH]; intros m Hr Hd Hleft.
  - apply timeout_loop_due; [exact Hs | exact Hr | lia].
  - remember (S fuel) as n eqn:Hn. cbn [timeout_loop].
    destruct (settledAtPosition (interrupts env m) position); [eauto |].
    set (ma := interrupts env m).
    set (mb := interrupts env ma).
    destruct (Z.ltb_spec (millis mb) deadline) as [Hlt | Hge]; [| eauto].
    subst n. apply IH.
    + apply clock_in_range_kept_by_update, interrupts_clock.
    + exact Hd.
    + pose proof (interrupts_advances m Ha Hr) as H1. fold ma in H1.
      pose proof (interrupts_steady env ma Hs (interrupts_clock env m)) as H2.
      fold mb in H2.
      pose proof (interrupts_steady env mb Hs (interrupts_clock env ma)) as H3.
      assert (H4 : millis (update env (interrupts env mb))
                   = millis (interrupts env mb)).
      { unfold millis.
        destruct (update_frame env (interrupts env mb))
          as (_ & _ & _ & _ & _ & _ & _ & _ & _ & ->).
        reflexivity. }
      rewrite H4. lia.
Qed.

Lemma goToPositionWaitTimeout_returns m position timeoutMS :
  clock_advances env -> is_uint32 timeoutMS ->
  exists r m',
    goToPositionWaitTimeout env (S (Z.to_nat timeoutMS)) m position timeoutMS
    = Some (r, m').
Proof.
  intros Ha Ht. unfold goToPositionWaitTimeout. cbv zeta.
  set (start := interrupts env (goToPosition m position)).
  assert (Hstart : is_uint32 (millis start)) by apply interrupts_clock.
  destruct (timeout_loop_returns (Z.to_nat timeoutMS) position
              (uint32 (timeoutMS + millis start)) start Ha Hstart) as [m1 Hrun].
  - pose proof (uint32_range (timeoutMS + millis start)). int_unfold. lia.
  - rewrite Z2Nat.id by (unfold is_uint32 in Ht; lia).
    revert Hstart. generalize (millis start). intros c Hc. int_solve.
  - rewrite Hrun. cbn [mbind option_bind].
    destruct (_ <=? _); eauto.
Qed.

End WaitTermination.

(** With the set point at tick 100: the gains over 8 at ticks 98 and
    102, the full gains at ticks 95 and 105 and 1000 ticks below, at
    tick -900. *)
Lemma update_tunings_witness :
  _pid (update Plant.calm (bench_goal_100 98))
  = _pid (bench_goal_100 98)
    ++ [eighth_gains (bench_goal_100 98); Compute (d_of_int 98) (d_of_int 100)]
  /\ _pid (update Plant.calm (bench_goal_100 102))
     = _pid (bench_goal_100 102)
       ++ [eighth_gains (bench_goal_100 102); Compute (d_of_int 102) (d_of_int 100)]
  /\ _pid (update Plant.calm (bench_goal_100 95))
     = _pid (bench_goal_100 95)
       ++ [full_gains (bench_goal_100 95); Compute (d_of_int 95) (d_of_int 100)]
  /\ _pid (update Plant.calm (bench_goal_100 105))
     = _pid (bench_goal_100 105)
       ++ [full_gains (bench_goal_100 105); Compute (d_of_int 105) (d_of_int 100)]
  /\ _pid (update Plant.calm (bench_goal_100 (-900)))
     = _pid (bench_goal_100 (-900))
       ++ [full_gains (bench_goal_100 (-900));
           Compute (d_of_int (-900)) (d_of_int 100)].
Proof.
  pose proof (proj1 binary32_bound_ok) as Hord.
  split; [| split; [| split; [| split]]].
  - exact (proj1 (update_tunings Plant.calm (bench_goal_100 98) Hord eq_refl)
             eq_refl).
  - exact (proj1 (update_tunings Plant.calm (bench_goal_100 102) Hord eq_refl)
             eq_refl).
  - exact (proj1 (proj2 (update_tunings Plant.calm (bench_goal_100 95) Hord
                           eq_refl)) eq_refl).
  - exact (proj1 (proj2 (update_tunings Plant.calm (bench_goal_100 105) Hord
                           eq_refl)) eq_refl).
  - exact (proj1 (proj2 (update_tunings Plant.calm (bench_goal_100 (-900)) Hord
                           eq_refl)) eq_refl).
Defined.

(** On the object the constructor leaves, [update()] does nothing. *)
Lemma update_disabled_witness : update Plant.servo Bench.fresh = Bench.fresh.
Proof.
  refine (proj1 (update_disabled Plant.servo Bench.fresh _)). reflexivity.
Defined.

(** The servo reaches tick 97 of 100 in seven turns of the loop. *)
Lemma goToPositionWait_returns_witness :
  exists m',
    goToPositionWait Plant.servo 7 Bench.fresh 100 = Some m'
    /\ getPosition m' = 97
    /\ settledAtPosition m' 100 = true
    /\ drive_stopped m'
    /\ _pidMode m' = BRICKTRONICS_MOTOR_PID_MODE_POSITION.
Proof.
  offer_result. split; [reflexivity |]. split; [reflexivity |].
  refine (goToPositionWait_returns Plant.servo 7 Bench.fresh 100 _ _).
  reflexivity.
Defined.

(** After [rawSetSpeed(-100)] and [stop()] the speed read is -100; after
    the servo's [goToPositionWait(100)] it is 1, the pins being low. *)
Lemma stop_keeps_rawSpeed_witness :
  rawGetSpeed (stop (rawSetSpeed Bench.fresh (-100))) = -100
  /\ exists m',
       goToPositionWait Plant.servo 7 Bench.fresh 100 = Some m'
       /\ rawGetSpeed m' = 1
       /\ drive_stopped m'.
Proof.
  assert (Hs : is_int16 (-100)) by (unfold is_int16; lia).
  assert (Hnz : -100 <> 0) by lia.
  destruct (stop_keeps_rawSpeed Plant.servo Bench.fresh (-100) 7 100 0 Hs Hnz)
    as (_ & Hraw & _ & Hwait & _).
  split; [exact Hraw |].
  offer_result. split; [reflexivity |]. split; [reflexivity |].
  match goal with |- drive_stopped ?x =>
    destruct (Hwait x eq_refl) as (m1 & _ & _ & _ & _ & Hstop)
  end.
  exact Hstop.
Defined.

(** The motor stands settled at the target and 7 ms are allowed.  The
    call reads the clock at 3 ms, the loop finds the motor settled at
    6 ms, and the clock read after the stop says 9 ms, still before the
    deadline of 10 ms: the call returns true. *)
Lemma goToPositionWaitTimeout_result_witness :
  exists rm,
    goToPositionWaitTimeout Plant.calm 1 Bench.fresh 0 7 = Some rm
    /\ rm.1 = true
    /\ drive_stopped rm.2
    /\ millis rm.2 = 9
    /\ settles_before_deadline Plant.calm 1 Bench.fresh 0 7.
Proof.
  offer_result. split; [reflexivity |]. split; [reflexivity |].
  match goal with |- drive_stopped ?x /\ _ =>
    destruct (proj1 (goToPositionWaitTimeout_result Plant.calm 1 Bench.fresh 0 7)
                true x eq_refl) as (Hstop & _ & Hset)
  end.
  split; [exact Hstop |]. split; [reflexivity |].
  exact (proj1 (proj1 (Hset calm_clock_steady) eq_refl)).
Defined.

(** C3 (the code departs from the claim).  The motor stands settled at
    the target and 5 ms are allowed; the clock gains 3 ms at each look.
    The loop finds the motor settled at 6 ms, before the deadline of
    8 ms, yet the call returns false: the clock read after the stop says
    9 ms. *)
Lemma goToPositionWaitTimeout_settled_in_time_yet_false :
  settles_before_deadline Plant.calm 1 Bench.fresh 0 5
  /\ fst <$> goToPositionWaitTimeout Plant.calm 1 Bench.fresh 0 5 = Some false.
Proof.
  split; [| reflexivity].
  unfold settles_before_deadline.
  match goal with |- exists _, ?call = Some _ /\ _ =>
    let r := eval vm_compute in call in
    match r with Some ?x => exists x end
  end.
  split; [reflexivity |]. split; [reflexivity |]. vm_compute. reflexivity.
Qed.

(** * Further properties of the class *)

(** ** Angles and the multiplier *)

Section MoreAngles.
Context `{D : Double}.
Implicit Type m : BricktronicsMotor.

(** X1.  With a multiplier other than zero [getAngle()] has a result: the
    remainder by 360 of the truncated quotient where that remainder is
    not negative, then within [0..359], and the remainder plus 65536
    where it is negative. *)
Theorem getAngle_cases m :
  _angleMultiplier m <> 0 ->
  let r := Z.rem (int32 (Z.quot (getPosition m) (_angleMultiplier m))) 360 in
  exists a,
    getAngle m = Some a
    /\ (0 <= r -> a = r /\ 0 <= a < 360)
    /\ (r < 0 -> a = r + 65536 /\ 65176 < a < 65536).
Proof.
  intros Hk r. subst r. unfold getPosition. rewrite getAngle_eq by exact Hk.
  pose proof (rem_360_bound (int32 (Z.quot (_encoder m) (_angleMultiplier m))))
    as Hr.
  set (r := Z.rem (int32 (Z.quot (_encoder m) (_angleMultiplier m))) 360) in *.
  clearbody r.
  eexists. split; [reflexivity |].
  split; intros Hs; (split; [| int_solve]); int_solve.
Qed.

(** X2.  [setAngle(angle)] followed by [getAngle()], for a multiplier
    other than zero: [angle mod 360] when [angle] is not negative or is a
    multiple of 360, and [angle mod 360 + 65176] otherwise. *)
Theorem setAngle_getAngle_cases m angle :
  is_int8 (_angleMultiplier m) -> _angleMultiplier m <> 0 ->
  getAngle (setAngle m angle)
  = Some (if (0 <=? angle) || (angle mod 360 =? 0)
          then angle mod 360 else angle mod 360 + 65176).
Proof.
  intros Hr Hk. rewrite setAngle_getAngle by assumption. f_equal.
  pose proof (rem_360_bound angle) as Hb.
  destruct (Z.leb_spec 0 angle) as [Hp | Hn]; cbn [orb].
  - rewrite Z.rem_mod_nonneg by lia.
    pose proof (Z.mod_pos_bound angle 360 ltac:(lia)). int_solve.
  - destruct (Z.eqb_spec (angle mod 360) 0) as [Hz | Hnz].
    + int_solve.
    + int_solve.
Qed.

(** X3.  [setAngleOutputMultiplier(k)] stores [2 * k] for [k] from -64
    to 63; from 64 to 127 the stored [int8_t] is [2 * k - 256], a
    negative multiplier. *)
Theorem setAngleOutputMultiplier_stored m k :
  is_int8 k ->
  (-64 <= k <= 63 -> _angleMultiplier (setAngleOutputMultiplier m k) = 2 * k)
  /\ (64 <= k -> _angleMultiplier (setAngleOutputMultiplier m k) = 2 * k - 256)
  /\ is_int8 (_angleMultiplier (setAngleOutputMultiplier m k)).
Proof.
  intros Hk. unfold setAngleOutputMultiplier. cbn [_angleMultiplier set_angleMultiplier].
  rewrite Z.shiftl_mul_pow2 by lia. change (2 ^ 1) with 2.
  split; [intros Hlo; int_solve |]. split; [intros Hhi; int_solve |].
  int_solve.
Qed.

(** X4.  [getAngle()] divides by the stored multiplier and has a result
    exactly when that is not zero.  After [setAngleOutputMultiplier(k)]
    with an [int8_t] [k] it is zero for [k = 0] and for [k = -128] only;
    then [_getDestPositionFromAngle()] and [goToAngle()] have no result
    either. *)
Theorem getAngle_result_iff m k angle :
  is_int8 k ->
  let m1 := setAngleOutputMultiplier m k in
  (getAngle m = None <-> _angleMultiplier m = 0)
  /\ (getAngle m1 = None <-> k = 0 \/ k = -128)
  /\ (k = 0 \/ k = -128 ->
      _getDestPositionFromAngle m1 angle = None /\ goToAngle m1 angle = None).
Proof.
  intros Hk m1.
  assert (Hiff : forall x : BricktronicsMotor,
             getAngle x = None <-> _angleMultiplier x = 0).
  { intros x. split.
    - intros Hn. destruct (Z.eq_dec (_angleMultiplier x) 0) as [Hz | Hz];
        [exact Hz |].
      rewrite getAngle_eq in Hn by exact Hz. discriminate.
    - apply getAngle_zero_multiplier. }
  assert (Hst : _angleMultiplier m1 = 0 <-> k = 0 \/ k = -128).
  { unfold m1, setAngleOutputMultiplier.
    cbn [_angleMultiplier set_angleMultiplier].
    rewrite Z.shiftl_mul_pow2 by lia. change (2 ^ 1) with 2.
    split; intros H; int_solve. }
  split; [apply Hiff |]. split; [rewrite Hiff; exact Hst |].
  intros Hz. apply Hst, Hiff in Hz.
  unfold goToAngle, _getDestPositionFromAngle, angle_delta. rewrite Hz.
  split; reflexivity.
Qed.

End MoreAngles.

(** ** Epsilon, tunings, raw drive, update *)

Section MoreControl.
Context `{D : Double}.
Variable env : Environment.
Implicit Type m : BricktronicsMotor.

(** X5.  [setEpsilon(e)] takes an [int8_t] and stores it in a [uint8_t]:
    [getEpsilon()] gives [e] back, but the tolerance [settledAtPosition]
    compares with is [e + 256] for a negative [e].  With [e = 0] no
    position passes the test. *)
Theorem setEpsilon_tolerance m e position :
  is_int8 e -> Z.abs (getPosition m - position) < 2147483648 ->
  getEpsilon (setEpsilon m e) = e
  /\ (settledAtPosition (setEpsilon m e) position = true
      <-> Z.abs (getPosition m - position) < (if e <? 0 then e + 256 else e)
          /\ d_lt (d_abs (_pidOutput m)) (d_of_int 30) = true)
  /\ (e = 0 -> settledAtPosition (setEpsilon m e) position = false).
Proof.
  intros He Hfit.
  assert (Hst : _epsilon (setEpsilon m e) = if e <? 0 then e + 256 else e).
  { unfold setEpsilon. cbn [_epsilon set_epsilon].
    destruct (Z.ltb_spec e 0); int_solve. }
  assert (Hiff : settledAtPosition (setEpsilon m e) position = true
                 <-> Z.abs (getPosition m - position)
                     < (if e <? 0 then e + 256 else e)
                     /\ d_lt (d_abs (_pidOutput m)) (d_of_int 30) = true).
  { rewrite settledAtPosition_eq, Hst.
    change (getPosition (setEpsilon m e)) with (getPosition m).
    change (_pidOutput (setEpsilon m e)) with (_pidOutput m).
    rewrite abs32_small by exact Hfit. reflexivity. }
  split; [| split; [exact Hiff |]].
  - unfold getEpsilon, setEpsilon. cbn [_epsilon set_epsilon]. int_solve.
  - intros ->. apply not_true_is_false. rewrite Hiff. cbn. lia.
Qed.

(** The calls [update] adds to the engine's log in position mode. *)
Lemma update_pid_log m :
  _pidMode m = BRICKTRONICS_MOTOR_PID_MODE_POSITION ->
  _pid (update env m)
  = _pid m
    ++ [if d_lt (d_abs (d_sub (d_of_int (_encoder m)) (_pidSetpoint m)))
             (d_of_int 5)
        then SetTunings (d_div (_pidKp m) (d_of_int 8))
               (d_div (_pidKi m) (d_of_int 8)) (d_div (_pidKd m) (d_of_int 8))
        else SetTunings (_pidKp m) (_pidKi m) (_pidKd m);
        Compute (d_of_int (_encoder m)) (_pidSetpoint m)].
Proof.
  intros Hmode. rewrite (update_position env m Hmode). cbv zeta.
  match goal with |- context [rawSetSpeed ?x ?s] =>
    destruct (rawSetSpeed_frame x s) as (_ & _ & _ & -> & _)
  end.
  cbn [_pidInput _pidSetpoint set_pidInput].
  destruct (d_lt _ _); cbn; rewrite <- app_assoc; reflexivity.
Qed.

(** X6.  [pidSetTunings(Kp, Ki, Kd)] stores the three gains and hands
    them to the engine; [pidSetKp], [pidSetKi] and [pidSetKd] replace one
    gain, keep the other two and hand the engine all three.  The
    [update()] that follows in position mode works from the new gains:
    it hands the engine the new gains, or the new gains over 8 near the
    set point. *)
Theorem pidSetTunings_then_update m Kp Ki Kd :
  _pidMode m = BRICKTRONICS_MOTOR_PID_MODE_POSITION ->
  let m1 := pidSetTunings m Kp Ki Kd in
  let near :=
    d_lt (d_abs (d_sub (d_of_int (_encoder m)) (_pidSetpoint m))) (d_of_int 5) in
  gains m1 = (Kp, Ki, Kd)
  /\ _pid (update env m1)
     = _pid m
       ++ [SetTunings Kp Ki Kd;
           if near
           then SetTunings (d_div Kp (d_of_int 8)) (d_div Ki (d_of_int 8))
                  (d_div Kd (d_of_int 8))
           else SetTunings Kp Ki Kd;
           Compute (d_of_int (_encoder m)) (_pidSetpoint m)]
  /\ gains (update env m1) = (Kp, Ki, Kd)
  /\ (gains (pidSetKp m Kp) = (Kp, _pidKi m, _pidKd m)
      /\ _pid (pidSetKp m Kp) = _pid m ++ [SetTunings Kp (_pidKi m) (_pidKd m)])
  /\ (gains (pidSetKi m Ki) = (_pidKp m, Ki, _pidKd m)
      /\ _pid (pidSetKi m Ki) = _pid m ++ [SetTunings (_pidKp m) Ki (_pidKd m)])
  /\ (gains (pidSetKd m Kd) = (_pidKp m, _pidKi m, Kd)
      /\ _pid (pidSetKd m Kd) = _pid m ++ [SetTunings (_pidKp m) (_pidKi m) Kd]).
Proof.
  intros Hmode m1 near.
  split; [reflexivity |]. split; [| split].
  - rewrite update_pid_log by exact Hmode.
    cbn [_pid _encoder _pidSetpoint _pidKp _pidKi _pidKd
         m1 pidSetTunings pidUpdateTunings pid_SetTunings pid_call set_pid
         set_gains].
    fold near. rewrite <- app_assoc. reflexivity.
  - destruct (update_frame env m1) as (_ & _ & _ & _ & _ & -> & _). reflexivity.
  - repeat split; reflexivity.
Qed.

Lemma rawSetSpeed_io_length m s :
  length (io (rawSetSpeed m s)) = (length (io m) + 3)%nat.
Proof.
  unfold rawSetSpeed. cbv zeta.
  destruct (s =? 0); [| destruct (s <? 0)]; cbn; rewrite !length_app; cbn; lia.
Qed.

(** X7.  With the three pins on different numbers, [rawSetSpeed(s)] for
    a speed other than zero leaves the enable pin high, the direction pin
    high exactly for a negative [s], and the PWM pin at duty [s], or
    [255 + s] for a negative [s]; the duty is within [0..255] for every
    [s] from -255 to 255. *)
Theorem rawSetSpeed_drives m s :
  _enPin m <> _dirPin m -> _enPin m <> _pwmPin m -> _dirPin m <> _pwmPin m ->
  s <> 0 ->
  let m' := rawSetSpeed m s in
  let duty := if s <? 0 then 255 + s else s in
  pins m' !! _enPin m = Some HIGH
  /\ pins m' !! _dirPin m = Some (Level (s <? 0))
  /\ pins m' !! _pwmPin m = Some (Duty duty)
  /\ (-255 <= s <= 255 -> 0 <= duty <= 255).
Proof.
  intros Hed Hep Hdp Hs. cbv zeta. unfold rawSetSpeed.
  destruct (Z.eqb_spec s 0) as [| _]; [contradiction |].
  destruct (Z.ltb_spec s 0); cbn;
    (repeat split;
     [ rewrite lookup_insert_eq; reflexivity
     | rewrite lookup_insert_ne, lookup_insert_ne, lookup_insert_eq by congruence;
       reflexivity
     | rewrite lookup_insert_ne, lookup_insert_eq by congruence; reflexivity
     | lia | lia ]).
Qed.

(** X8.  [update()] acts in position mode only.  In every other mode,
    the speed mode included, it returns the object as it is; in position
    mode it makes two calls on the engine and three on the pins, whatever
    [_enabled] says. *)
Theorem update_acts_in_position_mode_only m :
  (_pidMode m <> BRICKTRONICS_MOTOR_PID_MODE_POSITION -> update env m = m)
  /\ (_pidMode m = BRICKTRONICS_MOTOR_PID_MODE_POSITION ->
      length (_pid (update env m)) = (length (_pid m) + 2)%nat
      /\ length (io (update env m)) = (length (io m) + 3)%nat).
Proof.
  split; [apply update_other_mode |].
  intros Hmode. split.
  - rewrite update_pid_log by exact Hmode. rewrite length_app. cbn. lia.
  - rewrite (update_position env m Hmode). cbv zeta.
    rewrite rawSetSpeed_io_length.
    destruct (d_lt _ _); reflexivity.
Qed.

(** X9.  In position mode [update()] reads the encoder into [_pidInput],
    lets the engine compute, and commands the engine's output, truncated
    to an [int16_t], as raw speed.  It never writes the mode, the set
    point, the gains, the encoder, the multiplier, epsilon or the pin
    numbers. *)
Theorem update_effect m :
  _pidMode m = BRICKTRONICS_MOTOR_PID_MODE_POSITION ->
  let m' := update env m in
  _pidInput m' = d_of_int (_encoder m)
  /\ rawGetSpeed m' = int16 (d_to_int (_pidOutput m'))
  /\ _pidMode m' = _pidMode m /\ _pidSetpoint m' = _pidSetpoint m
  /\ gains m' = gains m /\ _encoder m' = _encoder m
  /\ _angleMultiplier m' = _angleMultiplier m /\ _epsilon m' = _epsilon m
  /\ _enPin m' = _enPin m /\ _dirPin m' = _dirPin m /\ _pwmPin m' = _pwmPin m.
Proof.
  intros Hmode. cbv zeta.
  destruct (update_frame env m)
    as (He & Hd & Hp & Hm & Hsp & Hg & Hen & Ha & Hep & _).
  split; [| split; [apply (update_speed_commanded env m Hmode) |]].
  - rewrite (update_position env m Hmode). cbv zeta.
    match goal with |- context [rawSetSpeed ?x ?s] =>
      destruct (rawSetSpeed_frame x s) as (_ & _ & _ & _ & _ & _ & -> & _)
    end.
    destruct (d_lt _ _); reflexivity.
  - repeat split; assumption.
Qed.

End MoreControl.

(** ** Going to an angle *)

Section MoreGoals.
Context `{D : Double}.
Variable env : Environment.
Implicit Type m : BricktronicsMotor.

(** X10.  Asking again for the same angle once the motor stands at the
    destination changes nothing: where the position is a whole multiple
    of the multiplier and half a turn away from the ends of [int32_t],
    [_getDestPositionFromAngle] at the destination it gave for [angle]
    finds a delta of zero and gives that destination again. *)
Theorem getDestPositionFromAngle_fixed_point m angle q dest :
  _angleMultiplier m <> 0 -> is_int8 (_angleMultiplier m) ->
  _encoder m = q * _angleMultiplier m ->
  -2147460608 <= _encoder m < 2147460608 ->
  _getDestPositionFromAngle m angle = Some dest ->
  angle_delta (setPosition m dest) angle = Some 0
  /\ _getDestPositionFromAngle (setPosition m dest) angle = Some dest.
Proof.
  intros Hk Hk8 Hq Hp Hdest.
  destruct (angle_delta_spec m angle Hk) as (delta & Hd & Hb & Hc).
  unfold _getDestPositionFromAngle, getPosition in Hdest.
  rewrite Hd in Hdest. cbn [mbind option_bind] in Hdest.
  rewrite int32_small in Hdest by (int_unfold; nia).
  injection Hdest as Hdest.
  assert (Hdq : dest = (q + delta) * _angleMultiplier m) by lia.
  rewrite Hq, Z.quot_mul in Hc by exact Hk.
  rewrite (int32_small q) in Hc by (int_unfold; nia).
  destruct (angle_delta_spec (setPosition m dest) angle Hk)
    as (delta' & Hd' & Hb' & Hc').
  unfold setPosition in Hc'. cbn [_encoder _angleMultiplier set_encoder] in Hc'.
  rewrite Hdq, Z.quot_mul in Hc' by exact Hk.
  rewrite (int32_small (q + delta)) in Hc' by (int_unfold; nia).
  assert (Hz : delta' = 0).
  { apply Z.mod_divide in Hc; [| lia]. apply Z.mod_divide in Hc'; [| lia].
    destruct Hc as [c Hc]. destruct Hc' as [c' Hc']. lia. }
  subst delta'. split; [exact Hd' |].
  unfold _getDestPositionFromAngle. rewrite Hd'. cbn [mbind option_bind].
  unfold setPosition, getPosition. cbn [_encoder set_encoder].
  rewrite Z.mul_0_l, Z.add_0_r. rewrite int32_small; [reflexivity |].
  int_unfold. nia.
Qed.

(** The loop of [goToPositionWait] leaves the set point alone. *)
Lemma wait_loop_setpoint fuel position m m1 :
  wait_loop env fuel position m = Some m1 ->
  _pidSetpoint m1 = _pidSetpoint m
  /\ (_pidMode m = BRICKTRONICS_MOTOR_PID_MODE_POSITION ->
      _pidMode m1 = BRICKTRONICS_MOTOR_PID_MODE_POSITION)
  /\ settledAtPosition m1 position = true.
Proof.
  intros Hrun.
  apply (wait_loop_exit env
           (fun x => _pidSetpoint x = _pidSetpoint m
                     /\ (_pidMode m = BRICKTRONICS_MOTOR_PID_MODE_POSITION ->
                         _pidMode x = BRICKTRONICS_MOTOR_PID_MODE_POSITION)))
    in Hrun as [[Hs Hm] Hset].
  - auto.
  - intros x Hx. exact Hx.
  - intros x [Hs Hm].
    destruct (update_frame env x) as (_ & _ & _ & -> & -> & _). auto.
  - auto.
Qed.

(** X11.  [goToAngle(angle)] only sets the goal: position mode, the set
    point at the tick [_getDestPositionFromAngle] gives, no call on the
    engine or the pins.  When [goToAngleWait(angle)] returns, the motor
    has settled at that tick, the set point is still that tick, the mode
    is still the position mode and the drive is stopped. *)
Theorem goToAngle_goal m angle dest :
  _getDestPositionFromAngle m angle = Some dest ->
  (exists m1,
      goToAngle m angle = Some m1
      /\ _pidMode m1 = BRICKTRONICS_MOTOR_PID_MODE_POSITION
      /\ _pidSetpoint m1 = d_of_int dest
      /\ _pid m1 = _pid m /\ io m1 = io m /\ pins m1 = pins m)
  /\ (forall fuel m',
         goToAngleWait env fuel m angle = Some m' ->
         settledAtPosition m' dest = true
         /\ _pidSetpoint m' = d_of_int dest
         /\ _pidMode m' = BRICKTRONICS_MOTOR_PID_MODE_POSITION
         /\ drive_stopped m').
Proof.
  intros Hdest. split.
  - unfold goToAngle. rewrite Hdest. cbn [mbind option_bind].
    eexists. split; [reflexivity |]. repeat split; reflexivity.
  - intros fuel m'. unfold goToAngleWait. rewrite Hdest.
    cbn [mbind option_bind]. unfold goToPositionWait. cbv zeta.
    destruct (wait_loop env fuel dest (goToPosition m dest))
      as [m1 |] eqn:Hrun; [| discriminate].
    cbn [mbind option_bind]. intros [= <-].
    apply wait_loop_setpoint in Hrun as (Hs & Hm & Hset).
    split; [rewrite stop_settledAtPosition; exact Hset |].
    split; [exact Hs |]. split; [apply Hm; reflexivity |].
    apply stop_drive_stopped.
Qed.

(** X12.  A motor that does not move and stands [_epsilon] ticks or more
    from the target never lets [goToPositionWait] return, however long
    the loop runs. *)
Theorem goToPositionWait_blocks m position fuel :
  encoder_still env -> is_int32 (_encoder m) ->
  _epsilon m <= Z.abs (_encoder m - position) < 2147483648 ->
  goToPositionWait env fuel m position = None.
Proof.
  intros Hstill Hr Hfar. unfold goToPositionWait. cbv zeta.
  assert (Hloop : forall x,
             _encoder x = _encoder m -> _epsilon x = _epsilon m ->
             wait_loop env fuel position x = None).
  { induction fuel as [| n IH]; intros x He Hp; [reflexivity |].
    cbn [wait_loop].
    assert (Hi : forall y, _encoder y = _encoder m ->
                           _encoder (interrupts env y) = _encoder m).
    { intros y Hy. unfold interrupts. cbn [_encoder set_encoder set_timer0_millis].
      rewrite Hstill, Hy. apply int32_small, Hr. }
    assert (Hs : settledAtPosition (interrupts env x) position = false).
    { apply not_true_is_false. rewrite settledAtPosition_eq.
      unfold getPosition. rewrite (Hi x He).
      change (_epsilon (interrupts env x)) with (_epsilon x). rewrite Hp.
      rewrite abs32_small by lia. lia. }
    rewrite Hs. apply IH.
    - destruct (update_frame env (interrupts env (interrupts env x)))
        as (_ & _ & _ & _ & _ & _ & -> & _).
      apply Hi, Hi, He.
    - destruct (update_frame env (interrupts env (interrupts env x)))
        as (_ & _ & _ & _ & _ & _ & _ & _ & -> & _).
      exact Hp. }
  rewrite Hloop; reflexivity.
Qed.

End MoreGoals.

(** ** Deadlines and delays *)

Section MoreWaits.
Context `{D : Double}.
Variable env : Environment.
Implicit Type m : BricktronicsMotor.

(** X13.  On a clock that advances, [goToPositionWaitTimeout] returns
    within [timeoutMS + 1] turns of its loop, with the drive stopped; for
    a motor that does not move and stands [_epsilon] ticks or more from
    the target it returns false. *)
Theorem goToPositionWaitTimeout_bounded m position timeoutMS :
  clock_advances env -> is_uint32 timeoutMS ->
  exists r m',
    goToPositionWaitTimeout env (S (Z.to_nat timeoutMS)) m position timeoutMS
    = Some (r, m')
    /\ drive_stopped m'
    /\ (encoder_still env -> is_int32 (_encoder m) ->
        _epsilon m <= Z.abs (_encoder m - position) < 2147483648 ->
        r = false).
Proof.
  intros Ha Ht. pose proof (clock_advances_steady env Ha) as Hsteady.
  unfold goToPositionWaitTimeout. cbv zeta.
  set (start := interrupts env (goToPosition m position)).
  set (deadline := uint32 (timeoutMS + millis start)).
  assert (Hstart : is_uint32 (millis start)) by apply interrupts_clock.
  destruct (timeout_loop_returns env (Z.to_nat timeoutMS) position deadline
              start Ha Hstart) as [m1 Hrun].
  - pose proof (uint32_range (timeoutMS + millis start)). subst deadline.
    int_unfold. lia.
  - rewrite Z2Nat.id by (unfold is_uint32 in Ht; lia). subst deadline.
    revert Hstart. generalize (millis start). intros c Hc. int_solve.
  - rewrite Hrun. cbn [mbind option_bind].
    exists (negb (deadline <=? millis (interrupts env (stop m1)))),
      (interrupts env (stop m1)).
    split; [destruct (_ <=? _); reflexivity |].
    split; [apply interrupts_drive_stopped, stop_drive_stopped |].
    intros Hstill Hr Hfar.
    apply (timeout_loop_exit env
             (fun x => is_uint32 (millis x) /\ _encoder x = _encoder m
                       /\ _epsilon x = _epsilon m))
      in Hrun as [(Hc & He & Hp) Hexit].
    + assert (Hlate : deadline <= millis m1).
      { destruct Hexit as [Hset | Hlate]; [| exact Hlate].
        apply settledAtPosition_eq in Hset as [Hset _].
        unfold getPosition in Hset. rewrite He, Hp in Hset.
        rewrite abs32_small in Hset by lia. lia. }
      pose proof (interrupts_steady env (stop m1) Hsteady Hc) as Hle.
      change (millis (stop m1)) with (millis m1) in Hle.
      destruct (Z.leb_spec deadline (millis (interrupts env (stop m1))));
        [reflexivity | lia].
    + intros x (Hc & He & Hp). split; [apply interrupts_clock |].
      split; [| exact Hp].
      unfold interrupts. cbn [_encoder set_encoder set_timer0_millis].
      rewrite Hstill, He. apply int32_small, Hr.
    + intros x (Hc & He & Hp).
      split; [apply clock_in_range_kept_by_update, Hc |].
      destruct (update_frame env x) as (_ & _ & _ & _ & _ & _ & -> & _ & -> & _).
      auto.
    + split; [exact Hstart |]. split; [| reflexivity].
      unfold start, interrupts, goToPosition.
      cbn [_encoder set_encoder set_timer0_millis set_pidSetpoint set_pidMode].
      rewrite Hstill. apply int32_small, Hr.
Qed.

(** X14.  The deadline is a [uint32_t] sum.  When the time of the call
    plus [timeoutMS] does not fit, the deadline wraps around to a time
    already past: on a steady clock the call returns false in the first
    turn of its loop, the drive stopped, [update()] never called. *)
Theorem goToPositionWaitTimeout_deadline_wraps m position timeoutMS fuel :
  clock_steady env -> is_uint32 timeoutMS ->
  4294967296 <= timeoutMS + millis (interrupts env (goToPosition m position)) ->
  exists m',
    goToPositionWaitTimeout env (S fuel) m position timeoutMS = Some (false, m')
    /\ drive_stopped m'
    /\ _pid m' = _pid m.
Proof.
  intros Hsteady Ht Hwrap. unfold goToPositionWaitTimeout. cbv zeta.
  set (start := interrupts env (goToPosition m position)) in *.
  set (deadline := uint32 (timeoutMS + millis start)).
  assert (Hstart : is_uint32 (millis start)) by apply interrupts_clock.
  assert (Hpast : deadline <= millis start).
  { subst deadline. revert Hstart Hwrap. generalize (millis start).
    intros c Hc Hw. int_solve. }
  pose proof (interrupts_steady env start Hsteady Hstart) as H1.
  pose proof (interrupts_steady env (interrupts env start) Hsteady
                (interrupts_clock env start)) as H2.
  assert (Hloop : exists m1,
             timeout_loop env (S fuel) position deadline start = Some m1
             /\ _pid m1 = _pid m /\ is_uint32 (millis m1)
             /\ deadline <= millis m1).
  { cbn [timeout_loop].
    destruct (settledAtPosition (interrupts env start) position).
    - eexists. split; [reflexivity |]. split; [reflexivity |].
      split; [apply interrupts_clock | lia].
    - destruct (Z.ltb_spec (millis (interrupts env (interrupts env start)))
                  deadline); [lia |].
      eexists. split; [reflexivity |]. split; [reflexivity |].
      split; [apply interrupts_clock | lia]. }
  destruct Hloop as (m1 & Hrun & Hlog & Hc & Hlate).
  rewrite Hrun. cbn [mbind option_bind].
  pose proof (interrupts_steady env (stop m1) Hsteady Hc) as Hle.
  change (millis (stop m1)) with (millis m1) in Hle.
  destruct (Z.leb_spec deadline (millis (interrupts env (stop m1)))); [| lia].
  eexists. split; [reflexivity |].
  split; [apply interrupts_drive_stopped, stop_drive_stopped | exact Hlog].
Qed.

(** A property kept by the interrupts and by [update] holds when the
    loop of [delayUpdateMS] ends, and the clock has then reached the end
    time. *)
Lemma delay_loop_exit (P : BricktronicsMotor -> Prop) :
  (forall m, P m -> P (interrupts env m)) ->
  (forall m, P m -> P (update env m)) ->
  forall fuel endTime m m1,
    P m -> delay_loop env fuel endTime m = Some m1 ->
    P m1 /\ endTime <= millis m1.
Proof.
  intros Hi Hu fuel endTime.
  induction fuel as [| fuel IH]; intros m m1 HP Hrun; [discriminate |].
  cbn [delay_loop] in Hrun.
  destruct (Z.ltb_spec (millis (interrupts env m)) endTime).
  - apply (IH _ _ (Hu _ (Hi _ (Hi _ HP))) Hrun).
  - injection Hrun as <-. auto.
Qed.

Lemma delay_loop_returns fuel endTime m :
  clock_advances env -> is_uint32 (millis m) -> endTime <= 4294967295 ->
  endTime - millis m <= Z.of_nat fuel ->
  exists m1, delay_loop env (S fuel) endTime m = Some m1.
Proof.
  intros Ha. pose proof (clock_advances_steady env Ha) as Hs.
  revert m. induction fuel as [| fuel IH]; intros m Hr Hd Hleft.
  - cbn [delay_loop]. pose proof (interrupts_steady env m Hs Hr).
    destruct (Z.ltb_spec (millis (interrupts env m)) endTime); [lia | eauto].
  - remember (S fuel) as n eqn:Hn. cbn [delay_loop].
    set (ma := interrupts env m).
    destruct (Z.ltb_spec (millis ma) endTime) as [Hlt | Hge]; [| eauto].
    subst n. apply IH.
    + apply clock_in_range_kept_by_update, interrupts_clock.
    + exact Hd.
    + pose proof (interrupts_advances env m Ha Hr) as H1. fold ma in H1.
      pose proof (interrupts_steady env ma Hs (interrupts_clock env m)) as H2.
      assert (H4 : millis (update env (interrupts env ma))
                   = millis (interrupts env ma)).
      { unfold millis.
        destruct (update_frame env (interrupts env ma))
          as (_ & _ & _ & _ & _ & _ & _ & _ & _ & ->).
        reflexivity. }
      rewrite H4. lia.
Qed.

(** X15.  When [delayUpdateMS(delayMS)] returns, the clock has reached
    the end time, the time of the call plus [delayMS] as an
    [unsigned long].  Outside position mode the call changes nothing but
    the two counters the interrupts own: no member, no pin, no call on
    the engine. *)
Theorem delayUpdateMS_returns fuel m delayMS m' :
  delayUpdateMS env fuel m delayMS = Some m' ->
  uint32 (millis (interrupts env m) + delayMS) <= millis m'
  /\ (_pidMode m <> BRICKTRONICS_MOTOR_PID_MODE_POSITION ->
      m' = set_timer0_millis (timer0_millis m') (set_encoder (_encoder m') m)).
Proof.
  unfold delayUpdateMS. cbv zeta. intros Hrun. split.
  - apply (delay_loop_exit (fun _ => True)) in Hrun; [apply Hrun | auto ..].
  - intros Hmode.
    apply (delay_loop_exit
             (fun x => x = set_timer0_millis (timer0_millis x)
                             (set_encoder (_encoder x) m)))
      in Hrun; [apply Hrun | | |].
    + intros x Hx. rewrite Hx. reflexivity.
    + intros x Hx. rewrite update_other_mode; [exact Hx |].
      rewrite Hx. exact Hmode.
    + reflexivity.
Qed.

(** X16.  On a clock that advances, [delayUpdateMS(delayMS)] with
    [delayMS] not negative returns within [delayMS + 1] turns of its
    loop; with [delayMS = 0] it returns without a call to [update()]. *)
Theorem delayUpdateMS_bounded m delayMS :
  clock_advances env -> 0 <= delayMS < 32768 ->
  (exists m', delayUpdateMS env (S (Z.to_nat delayMS)) m delayMS = Some m')
  /\ (delayMS = 0 ->
      forall fuel,
        delayUpdateMS env (S fuel) m delayMS
        = Some (interrupts env (interrupts env m))).
Proof.
  intros Ha Hd. pose proof (clock_advances_steady env Ha) as Hs.
  unfold delayUpdateMS. cbv zeta.
  set (start := interrupts env m).
  assert (Hstart : is_uint32 (millis start)) by apply interrupts_clock.
  split.
  - apply delay_loop_returns; [exact Ha | exact Hstart | |].
    + pose proof (uint32_range (millis start + delayMS)). int_unfold. lia.
    + rewrite Z2Nat.id by lia.
      revert Hstart. generalize (millis start). intros c Hc. int_solve.
  - intros -> fuel. rewrite Z.add_0_r, uint32_small by exact Hstart.
    cbn [delay_loop].
    pose proof (interrupts_steady env start Hs Hstart).
    destruct (Z.ltb_spec (millis (interrupts env start)) (millis start));
      [lia | reflexivity].
Qed.

End MoreWaits.

(** ** begin(), enable(), disable() *)

Section MoreLifecycle.
Context `{D : Double}.
Variable env : Environment.
Implicit Type b : Board.

Lemma timer_prescaler t :
  let t' := uint8 (Z.lor (Z.land t 248) 1) in
  Z.land t' 7 = 1 /\ Z.land t' 248 = Z.land t 248 /\ is_uint8 t'.
Proof.
  cbv zeta.
  assert (Hu : uint8 (Z.lor (Z.land t 248) 1) = Z.lor (Z.land t 248) 1).
  { unfold uint8, unsigned. change 248 with (Z.land 248 (Z.ones 8)) at 2.
    rewrite <- Z.land_ones by lia.
    rewrite Z.land_lor_distr_l, <- Z.land_assoc. reflexivity. }
  rewrite Hu. split; [| split].
  - rewrite Z.land_lor_distr_l, <- Z.land_assoc. cbn. rewrite Z.land_0_r.
    reflexivity.
  - rewrite Z.land_lor_distr_l, <- Z.land_assoc. cbn. apply Z.lor_0_r.
  - rewrite <- Hu. pose proof (Z.mod_pos_bound (Z.lor (Z.land t 248) 1) 256).
    unfold is_uint8, uint8, unsigned. change (2 ^ 8) with 256. lia.
Qed.

(** X17.  [begin()], and [enable()] which is the same, leaves the motor
    enabled and stopped, its three pins outputs and low, the engine in
    automatic mode; in [TCCR1B] the three clock-select bits read 001 and
    the other five are kept.  It does not touch [_pidMode], the set point
    or the encoder. *)
Theorem begin_effect b :
  let b' := begin b in
  enable b = begin b
  /\ _enabled (motor b') = true
  /\ pid_mode b' = AUTOMATIC
  /\ drive_stopped (motor b')
  /\ pin_direction b' !! _enPin (motor b) = Some OUTPUT
  /\ pin_direction b' !! _dirPin (motor b) = Some OUTPUT
  /\ pin_direction b' !! _pwmPin (motor b) = Some OUTPUT
  /\ Z.land (TCCR1B b') 7 = 1
  /\ Z.land (TCCR1B b') 248 = Z.land (TCCR1B b) 248
  /\ is_uint8 (TCCR1B b')
  /\ _pidMode (motor b') = _pidMode (motor b)
  /\ _pidSetpoint (motor b') = _pidSetpoint (motor b)
  /\ _encoder (motor b') = _encoder (motor b).
Proof.
  cbv zeta. destruct (timer_prescaler (TCCR1B b)) as (H1 & H2 & H3).
  split; [reflexivity |]. split; [reflexivity |]. split; [reflexivity |].
  split; [apply (stop_drive_stopped (set_enabled true (motor b))) |].
  split; [| split; [| split]].
  1-3: unfold begin; cbn; rewrite !lookup_insert; repeat case_decide; congruence.
  split; [exact H1 |]. split; [exact H2 |]. split; [exact H3 |].
  repeat split.
Qed.

(** X18.  [disable()] clears [_enabled] and makes the three pins inputs,
    and that is all: the levels last written, [_pidMode] and the set
    point stay, so an [update()] in position mode after [disable()] still
    calls the engine twice and writes the pins three times. *)
Theorem disable_effect b :
  let b' := disable b in
  motor b' = set_enabled false (motor b)
  /\ pid_mode b' = pid_mode b /\ TCCR1B b' = TCCR1B b
  /\ _enabled (motor b') = false
  /\ pin_direction b' !! _enPin (motor b) = Some INPUT
  /\ pin_direction b' !! _dirPin (motor b) = Some INPUT
  /\ pin_direction b' !! _pwmPin (motor b) = Some INPUT
  /\ pins (motor b') = pins (motor b)
  /\ io (motor b') = io (motor b)
  /\ _pidMode (motor b') = _pidMode (motor b)
  /\ _pidSetpoint (motor b') = _pidSetpoint (motor b)
  /\ (_pidMode (motor b) = BRICKTRONICS_MOTOR_PID_MODE_POSITION ->
      length (_pid (update env (motor b'))) = (length (_pid (motor b)) + 2)%nat
      /\ length (io (update env (motor b'))) = (length (io (motor b)) + 3)%nat).
Proof.
  cbv zeta. split; [reflexivity |]. split; [reflexivity |].
  split; [reflexivity |]. split; [reflexivity |].
  split; [| split; [| split]].
  1-3: unfold disable; cbn; rewrite !lookup_insert; repeat case_decide; congruence.
  split; [reflexivity |]. split; [reflexivity |]. split; [reflexivity |].
  split; [reflexivity |].
  intros Hmode.
  assert (Hm : _pidMode (motor (disable b)) = BRICKTRONICS_MOTOR_PID_MODE_POSITION)
    by exact Hmode.
  split.
  - rewrite update_pid_log by exact Hm. rewrite length_app. cbn. lia.
  - rewrite (update_position env _ Hm). cbv zeta.
    rewrite rawSetSpeed_io_length. destruct (d_lt _ _); reflexivity.
Qed.

End MoreLifecycle.

(** ** The further properties on the bench *)

(** Settles a comparison between numbers that the bench fixes. *)
Ltac by_computation :=
  unfold is_int8, is_int16, is_int32, is_uint32;
  repeat split; vm_compute; first [reflexivity | discriminate].

Lemma calm_clock_advances : clock_advances Plant.calm.
Proof. intros m Hr. unfold is_uint32 in Hr. cbn. lia. Qed.

Lemma calm_encoder_still : encoder_still Plant.calm.
Proof. intros m. reflexivity. Qed.

(** At tick 700 the angle is 340; at tick -1 it is 65535. *)
Lemma getAngle_cases_witness :
  (exists a, getAngle (Bench.at_position 700) = Some a /\ a = 340)
  /\ (exists a, getAngle (Bench.at_position (-1)) = Some a /\ a = 65535).
Proof.
  split.
  - destruct (getAngle_cases (Bench.at_position 700)) as (a & Ha & Hpos & _);
      [vm_compute; discriminate |].
    exists a. split; [exact Ha |]. apply Hpos. vm_compute. discriminate.
  - destruct (getAngle_cases (Bench.at_position (-1))) as (a & Ha & _ & Hneg);
      [vm_compute; discriminate |].
    exists a. split; [exact Ha |]. apply Hneg. vm_compute. reflexivity.
Defined.

Lemma setAngle_getAngle_cases_witness :
  getAngle (setAngle Bench.fresh 725) = Some 5
  /\ getAngle (setAngle Bench.fresh (-720)) = Some 0
  /\ getAngle (setAngle Bench.fresh (-60)) = Some (300 + 65176).
Proof.
  assert (H8 : is_int8 (_angleMultiplier Bench.fresh)) by by_computation.
  assert (Hnz : _angleMultiplier Bench.fresh <> 0) by by_computation.
  split; [| split].
  - exact (setAngle_getAngle_cases Bench.fresh 725 H8 Hnz).
  - exact (setAngle_getAngle_cases Bench.fresh (-720) H8 Hnz).
  - exact (setAngle_getAngle_cases Bench.fresh (-60) H8 Hnz).
Defined.

Lemma setAngleOutputMultiplier_stored_witness :
  _angleMultiplier (setAngleOutputMultiplier Bench.fresh 5) = 10
  /\ _angleMultiplier (setAngleOutputMultiplier Bench.fresh 64) = -128.
Proof.
  split.
  - apply (setAngleOutputMultiplier_stored Bench.fresh 5);
      unfold is_int8; lia.
  - apply (setAngleOutputMultiplier_stored Bench.fresh 64);
      unfold is_int8; lia.
Defined.

Lemma getAngle_result_iff_witness :
  getAngle (setAngleOutputMultiplier Bench.fresh (-128)) = None
  /\ goToAngle (setAngleOutputMultiplier Bench.fresh (-128)) 90 = None.
Proof.
  assert (H8 : is_int8 (-128)) by (unfold is_int8; lia).
  destruct (getAngle_result_iff Bench.fresh (-128) 90 H8) as (_ & Hn & Hgo).
  split; [apply Hn; right; reflexivity |].
  apply Hgo. right. reflexivity.
Defined.

(** After [setEpsilon(-1)] the tolerance is 255 ticks: 200 ticks away
    counts as settled. *)
Lemma setEpsilon_tolerance_witness :
  getEpsilon (setEpsilon (Bench.at_position 200) (-1)) = -1
  /\ settledAtPosition (setEpsilon (Bench.at_position 200) (-1)) 0 = true.
Proof.
  destruct (setEpsilon_tolerance (Bench.at_position 200) (-1) 0)
    as (Hget & Hiff & _).
  - unfold is_int8. lia.
  - vm_compute. reflexivity.
  - split; [exact Hget |]. apply Hiff. split; [vm_compute |]; reflexivity.
Defined.

Lemma pidSetTunings_then_update_witness :
  gains (update Plant.calm
           (pidSetTunings (goToPosition Bench.fresh 100)
              (d_of_int 5) (d_of_int 6) (d_of_int 7)))
  = (d_of_int 5, d_of_int 6, d_of_int 7).
Proof.
  refine (proj1 (proj2 (proj2
            (pidSetTunings_then_update Plant.calm (goToPosition Bench.fresh 100)
               (d_of_int 5) (d_of_int 6) (d_of_int 7) _)))).
  reflexivity.
Defined.

(** Full speed backwards is duty 0 with the direction pin high. *)
Lemma rawSetSpeed_drives_witness :
  pins (rawSetSpeed Bench.fresh (-255)) !! 2 = Some HIGH
  /\ pins (rawSetSpeed Bench.fresh (-255)) !! 3 = Some HIGH
  /\ pins (rawSetSpeed Bench.fresh (-255)) !! 4 = Some (Duty 0).
Proof.
  assert (H1 : _enPin Bench.fresh <> _dirPin Bench.fresh) by by_computation.
  assert (H2 : _enPin Bench.fresh <> _pwmPin Bench.fresh) by by_computation.
  assert (H3 : _dirPin Bench.fresh <> _pwmPin Bench.fresh) by by_computation.
  assert (H4 : -255 <> 0) by lia.
  destruct (rawSetSpeed_drives Bench.fresh (-255) H1 H2 H3 H4)
    as (He & Hd & Hp & _).
  split; [exact He |]. split; [exact Hd | exact Hp].
Defined.

Lemma update_effect_witness :
  _pidInput (update Plant.servo (goToPosition (Bench.at_position 60) 100))
  = d_of_int 60
  /\ rawGetSpeed (update Plant.servo (goToPosition (Bench.at_position 60) 100))
     = 10.
Proof.
  destruct (update_effect Plant.servo (goToPosition (Bench.at_position 60) 100))
    as (Hin & Hsp & _); [reflexivity |].
  split; [exact Hin |]. rewrite Hsp. reflexivity.
Defined.

(** From tick 700 the destination for angle -90 is tick 630, and from
    tick 630 it is tick 630 again. *)
Lemma getDestPositionFromAngle_fixed_point_witness :
  angle_delta (setPosition (Bench.at_position 700) 630) (-90) = Some 0
  /\ _getDestPositionFromAngle (setPosition (Bench.at_position 700) 630) (-90)
     = Some 630.
Proof.
  apply (getDestPositionFromAngle_fixed_point (Bench.at_position 700) (-90) 700 630).
  - by_computation.
  - by_computation.
  - reflexivity.
  - by_computation.
  - reflexivity.
Defined.

Lemma goToAngle_goal_witness :
  exists m1,
    goToAngle (Bench.at_position 700) (-90) = Some m1
    /\ _pidSetpoint m1 = d_of_int 630.
Proof.
  destruct (proj1 (goToAngle_goal Plant.servo (Bench.at_position 700) (-90) 630
                     eq_refl)) as (m1 & Hgo & _ & Hsp & _).
  exists m1. split; assumption.
Defined.

Lemma goToPositionWait_blocks_witness :
  goToPositionWait Plant.calm 1000 Bench.fresh 100 = None.
Proof.
  apply (goToPositionWait_blocks Plant.calm Bench.fresh 100 1000).
  - exact calm_encoder_still.
  - by_computation.
  - by_computation.
Defined.

(** The same jammed motor with 20 ms allowed: the call returns false. *)
Lemma goToPositionWaitTimeout_bounded_witness :
  exists r m',
    goToPositionWaitTimeout Plant.calm 21 Bench.fresh 100 20 = Some (r, m')
    /\ drive_stopped m'
    /\ r = false.
Proof.
  destruct (goToPositionWaitTimeout_bounded Plant.calm Bench.fresh 100 20)
    as (r & m' & Hrun & Hstop & Hfalse).
  - exact calm_clock_advances.
  - unfold is_uint32. lia.
  - exists r, m'. split; [exact Hrun |]. split; [exact Hstop |].
    apply Hfalse.
    + exact calm_encoder_still.
    + by_computation.
    + by_computation.
Defined.

(** Called at 3 ms with the largest timeout, the deadline is 2 ms. *)
Lemma goToPositionWaitTimeout_deadline_wraps_witness :
  exists m',
    goToPositionWaitTimeout Plant.servo 1 Bench.fresh 100 4294967295
    = Some (false, m')
    /\ drive_stopped m'
    /\ _pid m' = _pid Bench.fresh.
Proof.
  apply (goToPositionWaitTimeout_deadline_wraps Plant.servo Bench.fresh 100
           4294967295 0).
  - exact servo_clock_steady.
  - unfold is_uint32. lia.
  - vm_compute. discriminate.
Defined.

(** A delay of 10 ms asked at 3 ms ends at 18 ms. *)
Lemma delayUpdateMS_returns_witness :
  exists m',
    delayUpdateMS Plant.calm 3 Bench.fresh 10 = Some m'
    /\ millis m' = 18
    /\ 13 <= millis m'
    /\ pins m' = pins Bench.fresh.
Proof.
  offer_result. split; [reflexivity |]. split; [reflexivity |].
  match goal with |- _ <= millis ?x /\ _ =>
    destruct (delayUpdateMS_returns Plant.calm 3 Bench.fresh 10 x eq_refl)
      as [Hend Hsame]
  end.
  split; [exact Hend |]. reflexivity.
Defined.

Lemma delayUpdateMS_bounded_witness :
  (exists m', delayUpdateMS Plant.servo 11 Bench.fresh 10 = Some m')
  /\ delayUpdateMS Plant.servo 1 Bench.fresh 0
     = Some (interrupts Plant.servo (interrupts Plant.servo Bench.fresh)).
Proof.
  assert (Ha : clock_advances Plant.servo).
  { intros m Hr. unfold is_uint32 in Hr. cbn. lia. }
  split.
  - apply (delayUpdateMS_bounded Plant.servo Bench.fresh 10 Ha). lia.
  - apply (delayUpdateMS_bounded Plant.servo Bench.fresh 0 Ha); [lia | reflexivity].
Defined.
